(** * side RCU read-side primitives (src/rcu.h)

    A shallow embedding of the inline functions and macros of [rcu.h]:
    [futex], [side_rcu_wake_up_gp], [side_rcu_read_begin],
    [side_rcu_read_end], [side_rcu_dereference] and
    [side_rcu_assign_pointer].

    One call is modelled as a sequential computation over the
    grace-period state.  It yields the returned value, the state after
    the call and the list of memory and system events the call issued,
    each atomic access carrying the memory order written in the source.
    Indexing [percpu_state] or [count] out of range has no defined
    behaviour in C; the model stops with [Undefined] there. *)

From Stdlib Require Import ZArith Lia.
From stdpp Require Import base option list.

Local Open Scope Z_scope.

(** ** Machine integers *)

(** [uintptr_t] on the LP64 targets of the library: 64 bits. *)
Definition uintptr_bits : Z := 64.
Definition UINTPTR_MAX : Z := 2 ^ uintptr_bits - 1.
Definition INT_MAX : Z := 2 ^ 31 - 1.

(** Unsigned addition on [uintptr_t] wraps around. *)
Definition uintptr_add (a b : Z) : Z := (a + b) mod 2 ^ uintptr_bits.

(** Conversion of a [uint32_t] to [int] (two's complement). *)
Definition int_of_uint32 (u : Z) : Z :=
  let m := u mod 2 ^ 32 in
  if m <? 2 ^ 31 then m else m - 2 ^ 32.

(** Modelled from the spec: [side_likely] and [side_unlikely] come from
    side/macros.h, which is not among the sources.  The spec gives the
    branches they guard no condition but the tested one, so they are the
    identity on the truth value, as a branch-prediction hint is. *)
Definition side_likely (b : bool) : bool := b.
Definition side_unlikely (b : bool) : bool := b.

(** [FUTEX_WAKE] of <linux/futex.h>. *)
Definition FUTEX_WAKE : Z := 1.

(** ** Data model *)

(** [struct side_rcu_percpu_count]; [end] is a keyword, hence [end_]. *)
Record side_rcu_percpu_count := {
  begin : Z;
  rseq_begin : Z;
  end_ : Z;
  rseq_end : Z;
}.

(** [struct side_rcu_cpu_gp_state]: the array [count[2]]. *)
Record side_rcu_cpu_gp_state := {
  count : side_rcu_percpu_count * side_rcu_percpu_count;
}.

(** [struct side_rcu_gp_state].  [percpu_state] is the array the pointer
    designates; the cell [futex] is named [futex_word] because [futex]
    is also the name of the system-call wrapper. *)
Record side_rcu_gp_state := {
  percpu_state : list side_rcu_cpu_gp_state;
  nr_cpus : Z;
  futex_word : Z;
  period : Z;
  gp_lock : bool;
}.

(** The four members of [struct side_rcu_percpu_count]. *)
Inductive counter := Cbegin | Crseq_begin | Cend | Crseq_end.

(** The address [&gp_state->percpu_state[cpu].count[period].member]. *)
Record counter_ref := {
  ref_cpu : Z;
  ref_period : Z;
  ref_member : counter;
}.

#[global] Instance counter_eq_dec : EqDecision counter.
Proof. solve_decision. Defined.

#[global] Instance counter_ref_eq_dec : EqDecision counter_ref.
Proof. solve_decision. Defined.

(** The memory cells the header accesses: the fields [period] and
    [futex], the counters, and the lvalue [p] given to the publish and
    consume macros. *)
Inductive location :=
| Lperiod
| Lfutex
| Lcount (r : counter_ref)
| Lhandle.

Inductive memory_order :=
| RELAXED | CONSUME | ACQUIRE | RELEASE | ACQ_REL | SEQ_CST.

(** What a call does to memory and to the kernel, in program order. *)
Inductive event :=
| AtomicLoad (l : location) (mo : memory_order) (v : Z)
| AtomicStore (l : location) (v : Z) (mo : memory_order)
| AtomicAddFetch (l : location) (n : Z) (mo : memory_order)
| RseqCpuStart (cpu : N)
| RseqAddv (l : location) (n : Z) (cpu : Z) (ret : Z)
| RseqBarrier
| SchedGetcpu (ret : Z)
| ThreadFence (mo : memory_order)
| SysFutex (uaddr : location) (op val : Z) (timeout : option Z)
    (uaddr2 : option location) (val3 : Z).

(** What the surroundings answer during one call: the capability flag
    [side_rcu_rseq_membarrier_available] (an [extern unsigned int]), the
    [uint32_t] read by librseq's [rseq_cpu_start], the [int] returned by
    [rseq_addv] (0 when the increment committed, non-zero when it
    aborted), the [int] returned by [sched_getcpu] and the result of the
    [futex] system call. *)
Record oracle := {
  side_rcu_rseq_membarrier_available : Z;
  cpu_start : N;
  addv_result : Z;
  getcpu_result : Z;
  futex_result : Z;
}.

(** ** Counters in the state *)

Definition get_member (m : counter) (c : side_rcu_percpu_count) : Z :=
  match m with
  | Cbegin => begin c
  | Crseq_begin => rseq_begin c
  | Cend => end_ c
  | Crseq_end => rseq_end c
  end.

Definition set_member (m : counter) (v : Z) (c : side_rcu_percpu_count)
  : side_rcu_percpu_count :=
  match m with
  | Cbegin =>
      {| begin := v; rseq_begin := rseq_begin c;
         end_ := end_ c; rseq_end := rseq_end c |}
  | Crseq_begin =>
      {| begin := begin c; rseq_begin := v;
         end_ := end_ c; rseq_end := rseq_end c |}
  | Cend =>
      {| begin := begin c; rseq_begin := rseq_begin c;
         end_ := v; rseq_end := rseq_end c |}
  | Crseq_end =>
      {| begin := begin c; rseq_begin := rseq_begin c;
         end_ := end_ c; rseq_end := v |}
  end.

(** [count[p]] of a two-element array. *)
Definition count_at (p : Z) (s : side_rcu_cpu_gp_state)
  : option side_rcu_percpu_count :=
  if p =? 0 then Some (fst (count s))
  else if p =? 1 then Some (snd (count s))
  else None.

Definition set_count_at (p : Z) (c : side_rcu_percpu_count)
    (s : side_rcu_cpu_gp_state) : side_rcu_cpu_gp_state :=
  if p =? 0 then {| count := (c, snd (count s)) |}
  else if p =? 1 then {| count := (fst (count s), c) |}
  else s.

(** [percpu_state[cpu]]. *)
Definition percpu_at (cpu : Z) (st : side_rcu_gp_state)
  : option side_rcu_cpu_gp_state :=
  if cpu <? 0 then None else percpu_state st !! Z.to_nat cpu.

Definition read_counter (r : counter_ref) (st : side_rcu_gp_state)
  : option Z :=
  s ← percpu_at (ref_cpu r) st;
  c ← count_at (ref_period r) s;
  Some (get_member (ref_member r) c).

Definition with_percpu_state (l : list side_rcu_cpu_gp_state)
    (st : side_rcu_gp_state) : side_rcu_gp_state :=
  {| percpu_state := l; nr_cpus := nr_cpus st;
     futex_word := futex_word st; period := period st;
     gp_lock := gp_lock st |}.

Definition with_futex_word (v : Z) (st : side_rcu_gp_state)
  : side_rcu_gp_state :=
  {| percpu_state := percpu_state st; nr_cpus := nr_cpus st;
     futex_word := v; period := period st; gp_lock := gp_lock st |}.

Definition write_counter (r : counter_ref) (v : Z)
    (st : side_rcu_gp_state) : option side_rcu_gp_state :=
  s ← percpu_at (ref_cpu r) st;
  c ← count_at (ref_period r) s;
  Some (with_percpu_state
          (<[Z.to_nat (ref_cpu r) :=
               set_count_at (ref_period r)
                 (set_member (ref_member r) v c) s]> (percpu_state st))
          st).

(** ** Computations *)

Inductive outcome (A : Type) :=
| Done (a : A) (st : side_rcu_gp_state) (tr : list event)
| Undefined.
Arguments Done {A} a st tr.
Arguments Undefined {A}.

Definition M (A : Type) : Type := side_rcu_gp_state → outcome A.

Definition ret {A} (a : A) : M A := λ st, Done a st [].

Definition bind {A B} (m : M A) (f : A → M B) : M B :=
  λ st,
    match m st with
    | Done a st1 t1 =>
        match f a st1 with
        | Done b st2 t2 => Done b st2 (t1 ++ t2)
        | Undefined => Undefined
        end
    | Undefined => Undefined
    end.

Declare Scope rcu_scope.
Delimit Scope rcu_scope with rcu.
Notation "x <- m ;; k" := (bind m (λ x, k))
  (at level 100, m at next level, right associativity) : rcu_scope.
Notation "m ;; k" := (bind m (λ _, k))
  (at level 100, right associativity) : rcu_scope.
Local Open Scope rcu_scope.

Definition emit (e : event) : M unit := λ st, Done tt st [e].

(** *** Memory accesses *)

(** [__atomic_load_n(&gp_state->period, mo)] *)
Definition atomic_load_period (mo : memory_order) : M Z :=
  λ st, Done (period st) st [AtomicLoad Lperiod mo (period st)].

(** [__atomic_load_n(&gp_state->futex, mo)] *)
Definition atomic_load_futex (mo : memory_order) : M Z :=
  λ st, Done (futex_word st) st [AtomicLoad Lfutex mo (futex_word st)].

(** [__atomic_store_n(&gp_state->futex, v, mo)] *)
Definition atomic_store_futex (v : Z) (mo : memory_order) : M unit :=
  λ st, Done tt (with_futex_word v st) [AtomicStore Lfutex v mo].

(** [&gp_state->percpu_state[cpu]]: the element is designated by its
    index; an index outside the array is undefined. *)
Definition percpu_state_ref (cpu : Z) : M Z :=
  λ st,
    match percpu_at cpu st with
    | Some _ => Done cpu st []
    | None => Undefined
    end.

(** [&cpu_gp_state->count[period].member] *)
Definition count_ref (cpu_gp_state : Z) (p : Z) (m : counter)
  : M counter_ref :=
  λ st,
    if (0 <=? p) && (p <? 2)
    then Done {| ref_cpu := cpu_gp_state; ref_period := p;
                 ref_member := m |} st []
    else Undefined.

(** Adds [n] to the counter at [r], wrapping, and yields the new value. *)
Definition add_counter (r : counter_ref) (n : Z) (st : side_rcu_gp_state)
  : option (Z * side_rcu_gp_state) :=
  old ← read_counter r st;
  st' ← write_counter r (uintptr_add old n) st;
  Some (uintptr_add old n, st').

(** [__atomic_add_fetch(r, n, mo)] *)
Definition atomic_add_fetch (r : counter_ref) (n : Z) (mo : memory_order)
  : M Z :=
  λ st,
    match add_counter r n st with
    | Some (v, st') => Done v st' [AtomicAddFetch (Lcount r) n mo]
    | None => Undefined
    end.

(** [__atomic_thread_fence(mo)] *)
Definition atomic_thread_fence (mo : memory_order) : M unit :=
  emit (ThreadFence mo).

(** *** librseq and libc *)

(** [rseq_cpu_start()] of librseq: the [uint32_t] it reads. *)
Definition rseq_cpu_start (o : oracle) : M N :=
  λ st, Done (cpu_start o) st [RseqCpuStart (cpu_start o)].

(** Modelled from the spec: [rseq_addv(v, count, cpu)] belongs to
    librseq and is not among the sources.  The restartable addition
    either commits, adding [count] to [*v], and the call returns 0, or
    it aborts, leaves [*v] as it was, and the call returns non-zero. *)
Definition rseq_addv (o : oracle) (v : counter_ref) (n : Z) (cpu : Z)
  : M Z :=
  λ st,
    if addv_result o =? 0 then
      match add_counter v n st with
      | Some (_, st') => Done 0 st' [RseqAddv (Lcount v) n cpu 0]
      | None => Undefined
      end
    else Done (addv_result o) st [RseqAddv (Lcount v) n cpu (addv_result o)].

(** [rseq_barrier()]: a compiler barrier. *)
Definition rseq_barrier : M unit := emit RseqBarrier.

(** [sched_getcpu()] *)
Definition sched_getcpu (o : oracle) : M Z :=
  λ st, Done (getcpu_result o) st [SchedGetcpu (getcpu_result o)].

(** ** The functions of rcu.h *)

(** [futex(uaddr, op, val, timeout, uaddr2, val3)]: the system call
    [__NR_futex] with these arguments; a null pointer is [None].  The one
    operation the header requests, [FUTEX_WAKE], writes nothing to user
    memory. *)
Definition futex (o : oracle) (uaddr : location) (op val : Z)
    (timeout : option Z) (uaddr2 : option location) (val3 : Z) : M Z :=
  λ st,
    Done (futex_result o) st [SysFutex uaddr op val timeout uaddr2 val3].

Definition side_rcu_wake_up_gp (o : oracle) : M unit :=
  v <- atomic_load_futex RELAXED ;;
  if side_unlikely (v =? -1) then
    atomic_store_futex 0 RELAXED ;;
    (* TODO of the source: the result of futex is dropped. *)
    _ <- futex o Lfutex FUTEX_WAKE 1 None None 0 ;;
    ret tt
  else ret tt.

Definition side_rcu_read_begin (o : oracle) : M Z :=
  period <- atomic_load_period RELAXED ;;
  returned <-
    (if side_likely (negb (side_rcu_rseq_membarrier_available o =? 0)) then
       c <- rseq_cpu_start o ;;
       let cpu := int_of_uint32 (Z.of_N c) in
       cpu_gp_state <- percpu_state_ref cpu ;;
       v <- count_ref cpu_gp_state period Crseq_begin ;;
       r <- rseq_addv o v 1 cpu ;;
       if side_likely (r =? 0) then
         (* barrier (A) *)
         rseq_barrier ;;
         ret true
       else ret false
     else ret false) ;;
  if (returned : bool) then ret period
  else
    (* Fallback to atomic increment and SEQ_CST. *)
    cpu <- sched_getcpu o ;;
    let cpu := if side_unlikely (cpu <? 0) then 0 else cpu in
    cpu_gp_state <- percpu_state_ref cpu ;;
    v <- count_ref cpu_gp_state period Cbegin ;;
    _ <- atomic_add_fetch v 1 SEQ_CST ;;
    ret period.

Definition side_rcu_read_end (o : oracle) (period : Z) : M unit :=
  jumped <-
    (if side_likely (negb (side_rcu_rseq_membarrier_available o =? 0)) then
       (* barrier (B) *)
       rseq_barrier ;;
       c <- rseq_cpu_start o ;;
       let cpu := int_of_uint32 (Z.of_N c) in
       cpu_gp_state <- percpu_state_ref cpu ;;
       v <- count_ref cpu_gp_state period Crseq_end ;;
       r <- rseq_addv o v 1 cpu ;;
       if side_likely (r =? 0) then
         (* barrier (F) *)
         rseq_barrier ;;
         ret true
       else ret false
     else ret false) ;;
  (if (jumped : bool) then ret tt
   else
     (* Fallback to atomic increment and SEQ_CST. *)
     cpu <- sched_getcpu o ;;
     let cpu := if side_unlikely (cpu <? 0) then 0 else cpu in
     cpu_gp_state <- percpu_state_ref cpu ;;
     v <- count_ref cpu_gp_state period Cend ;;
     _ <- atomic_add_fetch v 1 SEQ_CST ;;
     (* barrier (F) *)
     atomic_thread_fence SEQ_CST) ;;
  (* end: *)
  side_rcu_wake_up_gp o.

(** [side_rcu_dereference(p)]: the statement expression loads [p] and has
    the loaded value; [p] is the content of the handle. *)
Definition side_rcu_dereference (p : Z) : Z * list event :=
  let _____side_v := p in
  (_____side_v, [AtomicLoad Lhandle CONSUME p]).

(** [side_rcu_assign_pointer(p, v)]: yields the new content of [p]. *)
Definition side_rcu_assign_pointer (p v : Z) : Z * list event :=
  (v, [AtomicStore Lhandle v RELEASE]).

(** ** Derived notions used in the statements *)

(** The value of [cpu] on the restartable path and on the fallback. *)
Definition rseq_cpu (o : oracle) : Z := int_of_uint32 (Z.of_N (cpu_start o)).

Definition fallback_cpu (o : oracle) : Z :=
  if getcpu_result o <? 0 then 0 else getcpu_result o.

(** The capability flag is set. *)
Definition rseq_on (o : oracle) : bool :=
  negb (side_rcu_rseq_membarrier_available o =? 0).

(** The restartable increment is attempted and commits. *)
Definition fast_path (o : oracle) : bool :=
  rseq_on o && (addv_result o =? 0).

Definition cpu_in_bounds (cpu : Z) (st : side_rcu_gp_state) : bool :=
  (0 <=? cpu) && (cpu <? Z.of_nat (length (percpu_state st))).

Definition period_in_bounds (p : Z) : bool := (0 <=? p) && (p <? 2).

(** Every index a call forms with ticket [p] lies inside its array. *)
Definition indices_in_bounds (o : oracle) (p : Z) (st : side_rcu_gp_state)
  : bool :=
  period_in_bounds p &&
  (if rseq_on o then
     cpu_in_bounds (rseq_cpu o) st &&
     (if addv_result o =? 0 then true
      else cpu_in_bounds (fallback_cpu o) st)
   else cpu_in_bounds (fallback_cpu o) st).

Definition begin_defined (o : oracle) (st : side_rcu_gp_state) : bool :=
  indices_in_bounds o (period st) st.

Definition end_defined (o : oracle) (p : Z) (st : side_rcu_gp_state) : bool :=
  indices_in_bounds o p st.

Definition mk_ref (cpu p : Z) (m : counter) : counter_ref :=
  {| ref_cpu := cpu; ref_period := p; ref_member := m |}.

(** The counter a call of [side_rcu_read_begin] increments. *)
Definition begin_target (o : oracle) (st : side_rcu_gp_state) : counter_ref :=
  if fast_path o then mk_ref (rseq_cpu o) (period st) Crseq_begin
  else mk_ref (fallback_cpu o) (period st) Cbegin.

(** The counter a call of [side_rcu_read_end] increments. *)
Definition end_target (o : oracle) (p : Z) : counter_ref :=
  if fast_path o then mk_ref (rseq_cpu o) p Crseq_end
  else mk_ref (fallback_cpu o) p Cend.

(** The location an event reads or writes, if any. *)
Definition event_location (e : event) : option location :=
  match e with
  | AtomicLoad l _ _ | AtomicStore l _ _ | AtomicAddFetch l _ _
  | RseqAddv l _ _ _ | SysFutex l _ _ _ _ _ => Some l
  | RseqCpuStart _ | RseqBarrier | SchedGetcpu _ | ThreadFence _ => None
  end.

(** An event that writes to memory. *)
Definition is_write (e : event) : bool :=
  match e with
  | AtomicStore _ _ _ | AtomicAddFetch _ _ _ => true
  | RseqAddv _ _ _ ret => ret =? 0
  | _ => false
  end.

(** A [FUTEX_WAKE] system call. *)
Definition is_wake (e : event) : bool :=
  match e with
  | SysFutex _ op _ _ _ _ => op =? FUTEX_WAKE
  | _ => false
  end.

(** The events of the wake-up check when the futex cell holds [v]. *)
Definition wake_trace (v : Z) : list event :=
  AtomicLoad Lfutex RELAXED v ::
  (if v =? -1
   then [AtomicStore Lfutex 0 RELAXED;
         SysFutex Lfutex FUTEX_WAKE 1 None None 0]
   else []).

(** The events of [side_rcu_read_begin]. *)
Definition begin_trace (o : oracle) (st : side_rcu_gp_state) : list event :=
  AtomicLoad Lperiod RELAXED (period st) ::
  (if rseq_on o then
     [RseqCpuStart (cpu_start o);
      RseqAddv (Lcount (mk_ref (rseq_cpu o) (period st) Crseq_begin)) 1
        (rseq_cpu o) (addv_result o)]
   else []) ++
  (if fast_path o then [RseqBarrier]
   else
     [SchedGetcpu (getcpu_result o);
      AtomicAddFetch (Lcount (mk_ref (fallback_cpu o) (period st) Cbegin)) 1
        SEQ_CST]).

(** The events of [side_rcu_read_end] up to the label [end]. *)
Definition end_count_trace (o : oracle) (p : Z) : list event :=
  (if rseq_on o then
     [RseqBarrier; RseqCpuStart (cpu_start o);
      RseqAddv (Lcount (mk_ref (rseq_cpu o) p Crseq_end)) 1
        (rseq_cpu o) (addv_result o)]
   else []) ++
  (if fast_path o then [RseqBarrier]
   else
     [SchedGetcpu (getcpu_result o);
      AtomicAddFetch (Lcount (mk_ref (fallback_cpu o) p Cend)) 1 SEQ_CST;
      ThreadFence SEQ_CST]).

(** The state after the wake-up check started in [st]. *)
Definition woken (st : side_rcu_gp_state) : side_rcu_gp_state :=
  if futex_word st =? -1 then with_futex_word 0 st else st.

(** A state [st'] that differs from [st] in the counter [r] alone, which
    went from [old] to [old + 1] in [uintptr_t] arithmetic. *)
Definition increments_only (r : counter_ref) (old : Z)
    (st st' : side_rcu_gp_state) : Prop :=
  read_counter r st = Some old ∧
  read_counter r st' = Some (uintptr_add old 1) ∧
  (∀ r', r' ≠ r → read_counter r' st' = read_counter r' st) ∧
  length (percpu_state st') = length (percpu_state st) ∧
  nr_cpus st' = nr_cpus st ∧
  futex_word st' = futex_word st ∧
  period st' = period st ∧
  gp_lock st' = gp_lock st.

(** The fields a reader call leaves alone and the one counter it adds 1
    to: [r] went from [old] to [old + 1] modulo 2^64, and [r] is the one
    counter, over all CPUs, periods and members, whose value differs. *)
Definition one_counter_incremented (r : counter_ref) (old : Z)
    (st st' : side_rcu_gp_state) : Prop :=
  read_counter r st = Some old ∧
  read_counter r st' = Some (uintptr_add old 1) ∧
  (∀ r', read_counter r' st' ≠ read_counter r' st ↔ r' = r) ∧
  length (percpu_state st') = length (percpu_state st) ∧
  nr_cpus st' = nr_cpus st ∧
  period st' = period st ∧
  gp_lock st' = gp_lock st.

(** The CPU numbers received during a call are below [n]: the one read by
    [rseq_cpu_start], and the one of [sched_getcpu] once a negative
    result has been replaced by 0. *)
Definition cpu_ids_below (o : oracle) (n : Z) : Prop :=
  Z.of_N (cpu_start o) < n ∧
  (if getcpu_result o <? 0 then 0 else getcpu_result o) < n.

(** One step of a reader: a call of either function that returns. *)
Inductive reader_step (st st' : side_rcu_gp_state) : Prop :=
| step_read_begin o t tr :
    side_rcu_read_begin o st = Done t st' tr → reader_step st st'
| step_read_end o p tr :
    side_rcu_read_end o p st = Done tt st' tr → reader_step st st'.

(** ** Sample states and answers *)

Definition zero_count : side_rcu_percpu_count :=
  {| begin := 0; rseq_begin := 0; end_ := 0; rseq_end := 0 |}.

Definition zero_cpu : side_rcu_cpu_gp_state :=
  {| count := (zero_count, zero_count) |}.

(** Two CPUs, every counter 0, period 0, the futex cell idle. *)
Definition init2 : side_rcu_gp_state :=
  {| percpu_state := [zero_cpu; zero_cpu]; nr_cpus := 2;
     futex_word := 0; period := 0; gp_lock := false |}.

Definition oracle_fast (cpu : N) : oracle :=
  {| side_rcu_rseq_membarrier_available := 1; cpu_start := cpu;
     addv_result := 0; getcpu_result := Z.of_N cpu; futex_result := 0 |}.

Definition oracle_abort (cpu : N) (getcpu : Z) : oracle :=
  {| side_rcu_rseq_membarrier_available := 1; cpu_start := cpu;
     addv_result := -1; getcpu_result := getcpu; futex_result := 0 |}.

Definition oracle_slow (getcpu : Z) : oracle :=
  {| side_rcu_rseq_membarrier_available := 0; cpu_start := 0%N;
     addv_result := -1; getcpu_result := getcpu; futex_result := 0 |}.

(** A state whose counter [begin] of CPU 0, period 0, is [UINTPTR_MAX]. *)
Definition saturated : side_rcu_gp_state :=
  {| percpu_state :=
       [{| count := ({| begin := UINTPTR_MAX; rseq_begin := 0;
                        end_ := 0; rseq_end := 0 |}, zero_count) |}];
     nr_cpus := 1; futex_word := 0; period := 0; gp_lock := false |}.

(** ** Runs of reader calls *)

(** A call of one of the two reader functions, with what the
    surroundings answer during it. *)
Inductive call :=
| ReadBegin (o : oracle)
| ReadEnd (o : oracle) (p : Z).

(** The state a call leaves, when its behaviour is defined. *)
Definition exec (c : call) (st : side_rcu_gp_state)
  : option side_rcu_gp_state :=
  match c with
  | ReadBegin o =>
      match side_rcu_read_begin o st with
      | Done _ st' _ => Some st'
      | Undefined => None
      end
  | ReadEnd o p =>
      match side_rcu_read_end o p st with
      | Done _ st' _ => Some st'
      | Undefined => None
      end
  end.

(** Calls one after the other, as one thread or as any interleaving of
    whole calls of several threads. *)
Fixpoint run (cs : list call) (st : side_rcu_gp_state)
  : option side_rcu_gp_state :=
  match cs with
  | [] => Some st
  | c :: cs' => st' ← exec c st; run cs' st'
  end.

Definition call_defined (c : call) (st : side_rcu_gp_state) : bool :=
  match c with
  | ReadBegin o => begin_defined o st
  | ReadEnd o p => end_defined o p st
  end.

Definition call_target (c : call) (st : side_rcu_gp_state) : counter_ref :=
  match c with
  | ReadBegin o => begin_target o st
  | ReadEnd o p => end_target o p
  end.

(** The counter [r'] after a call that added 1 to [r]. *)
Definition bump (r r' : counter_ref) (x : option Z) : option Z :=
  if decide (r' = r) then (λ v, uintptr_add v 1) <$> x else x.

(** What a call does to the futex cell holding [v]. *)
Definition call_futex (c : call) (v : Z) : Z :=
  match c with
  | ReadBegin _ => v
  | ReadEnd _ _ => if v =? -1 then 0 else v
  end.

(** ** Readers inside their critical section, as the counters tell *)

Definition counter_value (r : counter_ref) (st : side_rcu_gp_state) : Z :=
  default 0 (read_counter r st).

Definition Zsum (l : list Z) : Z := foldr Z.add 0 l.

(** The member [m] of [count[p]] summed over the CPUs of [percpu_state]. *)
Definition counter_total (m : counter) (p : Z) (st : side_rcu_gp_state) : Z :=
  Zsum (map (λ cpu, counter_value (mk_ref (Z.of_nat cpu) p m) st)
          (seq 0 (length (percpu_state st)))).

(** Begins minus ends of period [p] over all CPUs, in [uintptr_t]
    arithmetic: the readers that began under [p] and have not ended. *)
Definition active_readers (p : Z) (st : side_rcu_gp_state) : Z :=
  (counter_total Cbegin p st + counter_total Crseq_begin p st
   - counter_total Cend p st - counter_total Crseq_end p st)
  mod 2 ^ uintptr_bits.

(** What a call adds to the readers active under [p], when the state it
    starts in has period [p0]. *)
Definition call_delta (c : call) (p0 p : Z) : Z :=
  match c with
  | ReadBegin _ => if p0 =? p then 1 else 0
  | ReadEnd _ q => if q =? p then -1 else 0
  end.

Definition run_delta (cs : list call) (p0 p : Z) : Z :=
  Zsum (map (λ c, call_delta c p0 p) cs).

(** ** Kinds of events *)

(** An operation of librseq. *)
Definition is_rseq (e : event) : bool :=
  match e with
  | RseqCpuStart _ | RseqAddv _ _ _ _ | RseqBarrier => true
  | _ => false
  end.

(** An atomic read-modify-write, a fence instruction or a call into libc
    or the kernel. *)
Definition is_heavy (e : event) : bool :=
  match e with
  | AtomicAddFetch _ _ _ | ThreadFence _ | SchedGetcpu _
  | SysFutex _ _ _ _ _ _ => true
  | _ => false
  end.

(** ** Counters: reading after writing *)

Lemma cpu_in_bounds_spec cpu st :
  cpu_in_bounds cpu st = true ↔
  0 <= cpu < Z.of_nat (length (percpu_state st)).
Proof. unfold cpu_in_bounds. rewrite andb_true_iff. lia. Qed.

Lemma period_in_bounds_spec p :
  period_in_bounds p = true ↔ p = 0 ∨ p = 1.
Proof. unfold period_in_bounds. rewrite andb_true_iff. lia. Qed.

Lemma percpu_at_is_Some cpu st :
  is_Some (percpu_at cpu st) ↔ cpu_in_bounds cpu st = true.
Proof.
  rewrite cpu_in_bounds_spec. unfold percpu_at.
  destruct (Z.ltb_spec cpu 0) as [Hneg | Hpos].
  - split; [intros [? [=]] | lia].
  - rewrite lookup_lt_is_Some. lia.
Qed.

Lemma count_at_is_Some p s :
  is_Some (count_at p s) ↔ period_in_bounds p = true.
Proof.
  rewrite period_in_bounds_spec. unfold count_at.
  destruct (Z.eqb_spec p 0); [split; [lia | by eexists] |].
  destruct (Z.eqb_spec p 1); [split; [lia | by eexists] |].
  split; [intros [? [=]] | lia].
Qed.

Lemma get_set_member m v c : get_member m (set_member m v c) = v.
Proof. by destruct m. Qed.

Lemma get_set_member_ne m m' v c :
  m ≠ m' → get_member m' (set_member m v c) = get_member m' c.
Proof. by destruct m, m'. Qed.

Lemma count_at_set_count_at p c s :
  period_in_bounds p = true → count_at p (set_count_at p c s) = Some c.
Proof.
  rewrite period_in_bounds_spec. unfold count_at, set_count_at.
  by intros [-> | ->].
Qed.

Lemma count_at_set_count_at_ne p p' c s :
  p ≠ p' → count_at p' (set_count_at p c s) = count_at p' s.
Proof.
  intros Hne. unfold count_at, set_count_at.
  destruct (Z.eqb_spec p 0) as [-> | ?].
  - destruct (Z.eqb_spec p' 0); [congruence | done].
  - destruct (Z.eqb_spec p 1) as [-> | ?]; [| done].
    destruct (Z.eqb_spec p' 0); [done |].
    destruct (Z.eqb_spec p' 1); [congruence | done].
Qed.

(** What [write_counter] does to every counter of the state. *)
Lemma write_counter_spec r v st :
  cpu_in_bounds (ref_cpu r) st = true →
  period_in_bounds (ref_period r) = true →
  ∃ st',
    write_counter r v st = Some st' ∧
    read_counter r st' = Some v ∧
    (∀ r', r' ≠ r → read_counter r' st' = read_counter r' st) ∧
    length (percpu_state st') = length (percpu_state st) ∧
    nr_cpus st' = nr_cpus st ∧
    futex_word st' = futex_word st ∧
    period st' = period st ∧
    gp_lock st' = gp_lock st.
Proof.
  intros Hcpu Hper.
  destruct (proj2 (percpu_at_is_Some _ _) Hcpu) as [s Hs].
  destruct (proj2 (count_at_is_Some _ s) Hper) as [c Hc].
  apply cpu_in_bounds_spec in Hcpu.
  unfold write_counter. rewrite Hs. simpl. rewrite Hc. simpl.
  eexists. split; [reflexivity |].
  assert (Hlt : (Z.to_nat (ref_cpu r) < length (percpu_state st))%nat) by lia.
  split; [| split; [| split; [| done]]].
  - unfold read_counter, percpu_at. simpl.
    destruct (Z.ltb_spec (ref_cpu r) 0); [lia |].
    rewrite list_lookup_insert_eq by done. simpl.
    rewrite count_at_set_count_at by done. simpl.
    by rewrite get_set_member.
  - intros [cpu' p' m'] Hne. unfold read_counter, percpu_at. simpl.
    destruct (Z.ltb_spec cpu' 0); [done |].
    destruct (decide (cpu' = ref_cpu r)) as [-> | Hcpu'].
    + rewrite list_lookup_insert_eq by done.
      unfold percpu_at in Hs.
      destruct (Z.ltb_spec (ref_cpu r) 0); [lia |].
      rewrite Hs. simpl.
      destruct (decide (p' = ref_period r)) as [-> | Hp'].
      * rewrite count_at_set_count_at by done. rewrite Hc. simpl.
        rewrite get_set_member_ne; [done |].
        intros <-. apply Hne. by destruct r.
      * by rewrite count_at_set_count_at_ne.
    + rewrite list_lookup_insert_ne by lia. done.
  - simpl. apply length_insert.
Qed.

(** What [add_counter] does to every counter of the state. *)
Lemma add_counter_spec r n st :
  cpu_in_bounds (ref_cpu r) st = true →
  period_in_bounds (ref_period r) = true →
  ∃ old st',
    read_counter r st = Some old ∧
    add_counter r n st = Some (uintptr_add old n, st') ∧
    read_counter r st' = Some (uintptr_add old n) ∧
    (∀ r', r' ≠ r → read_counter r' st' = read_counter r' st) ∧
    length (percpu_state st') = length (percpu_state st) ∧
    nr_cpus st' = nr_cpus st ∧
    futex_word st' = futex_word st ∧
    period st' = period st ∧
    gp_lock st' = gp_lock st.
Proof.
  intros Hcpu Hper.
  destruct (proj2 (percpu_at_is_Some _ _) Hcpu) as [s Hs].
  destruct (proj2 (count_at_is_Some _ s) Hper) as [c Hc].
  assert (Hold : read_counter r st = Some (get_member (ref_member r) c)).
  { unfold read_counter. rewrite Hs. simpl. by rewrite Hc. }
  destruct (write_counter_spec r (uintptr_add (get_member (ref_member r) c) n)
              st Hcpu Hper) as (st' & Hw & Hrest).
  exists (get_member (ref_member r) c), st'.
  split; [done |]. split; [| done].
  unfold add_counter. rewrite Hold. simpl. by rewrite Hw.
Qed.

Lemma read_counter_is_Some r st :
  is_Some (read_counter r st) ↔
  cpu_in_bounds (ref_cpu r) st = true ∧ period_in_bounds (ref_period r) = true.
Proof.
  unfold read_counter. split.
  - intros [v Hv].
    destruct (percpu_at (ref_cpu r) st) as [s |] eqn:Hs; [| done].
    simpl in Hv.
    destruct (count_at (ref_period r) s) as [c |] eqn:Hc; [| done].
    split.
    + apply percpu_at_is_Some. by eexists.
    + apply (count_at_is_Some _ s). by eexists.
  - intros [Hcpu Hper].
    destruct (proj2 (percpu_at_is_Some _ _) Hcpu) as [s ->].
    destruct (proj2 (count_at_is_Some _ s) Hper) as [c Hc].
    simpl. rewrite Hc. by eexists.
Qed.

Lemma add_counter_None r n st :
  cpu_in_bounds (ref_cpu r) st && period_in_bounds (ref_period r) = false →
  add_counter r n st = None.
Proof.
  intros Hb. unfold add_counter.
  destruct (read_counter r st) as [old |] eqn:Hold; [| done].
  assert (His : is_Some (read_counter r st)) by by eexists.
  apply read_counter_is_Some in His as [H1 H2].
  rewrite H1, H2 in Hb. done.
Qed.

(** Adding one changes the stored value, whatever it was. *)
Lemma uintptr_add_1_ne old : uintptr_add old 1 ≠ old.
Proof.
  unfold uintptr_add, uintptr_bits. intros Heq.
  pose proof (Z.mod_pos_bound (old + 1) (2 ^ 64) ltac:(lia)) as Hb.
  rewrite Heq in Hb.
  destruct (decide (old = 2 ^ 64 - 1)) as [-> | Hne].
  - vm_compute in Heq. discriminate.
  - rewrite Z.mod_small in Heq by lia. lia.
Qed.

(** ** The calls in closed form *)

Lemma wake_up_gp_run o st :
  side_rcu_wake_up_gp o st = Done tt (woken st) (wake_trace (futex_word st)).
Proof.
  unfold side_rcu_wake_up_gp, woken, wake_trace, bind, atomic_load_futex,
    side_unlikely.
  by destruct (futex_word st =? -1).
Qed.

Lemma percpu_state_ref_run cpu st :
  cpu_in_bounds cpu st = true → percpu_state_ref cpu st = Done cpu st [].
Proof.
  intros H. unfold percpu_state_ref.
  by destruct (proj2 (percpu_at_is_Some _ _) H) as [s ->].
Qed.

Lemma percpu_state_ref_undefined cpu st :
  cpu_in_bounds cpu st = false → percpu_state_ref cpu st = Undefined.
Proof.
  intros H. unfold percpu_state_ref.
  destruct (percpu_at cpu st) eqn:Hs; [| done].
  assert (His : is_Some (percpu_at cpu st)) by by eexists.
  apply percpu_at_is_Some in His. congruence.
Qed.

Lemma indices_in_bounds_fast o p st :
  indices_in_bounds o p st = true → fast_path o = true →
  cpu_in_bounds (rseq_cpu o) st = true ∧ period_in_bounds p = true.
Proof.
  unfold indices_in_bounds, fast_path.
  destruct (rseq_on o); [| done]. simpl. intros H _.
  apply andb_true_iff in H as [-> H]. by apply andb_true_iff in H as [-> _].
Qed.

Lemma indices_in_bounds_fallback o p st :
  indices_in_bounds o p st = true → fast_path o = false →
  cpu_in_bounds (fallback_cpu o) st = true ∧ period_in_bounds p = true.
Proof.
  unfold indices_in_bounds, fast_path.
  destruct (rseq_on o); simpl.
  - intros H Hf. rewrite Hf in H. apply andb_true_iff in H as [-> H].
    by apply andb_true_iff in H as [_ ->].
  - intros H _. by apply andb_true_iff in H as [-> ->].
Qed.

Lemma indices_in_bounds_rseq o p st :
  indices_in_bounds o p st = true → rseq_on o = true →
  cpu_in_bounds (rseq_cpu o) st = true.
Proof.
  unfold indices_in_bounds. intros H Hon. rewrite Hon in H.
  apply andb_true_iff in H as [_ H]. by apply andb_true_iff in H as [-> _].
Qed.

Lemma begin_target_in_bounds o st :
  begin_defined o st = true →
  cpu_in_bounds (ref_cpu (begin_target o st)) st = true ∧
  period_in_bounds (ref_period (begin_target o st)) = true.
Proof.
  intros H. unfold begin_target.
  destruct (fast_path o) eqn:Hf; simpl.
  - by apply (indices_in_bounds_fast o).
  - by apply (indices_in_bounds_fallback o).
Qed.

Lemma end_target_in_bounds o p st :
  end_defined o p st = true →
  cpu_in_bounds (ref_cpu (end_target o p)) st = true ∧
  period_in_bounds (ref_period (end_target o p)) = true.
Proof.
  intros H. unfold end_target.
  destruct (fast_path o) eqn:Hf; simpl.
  - by apply (indices_in_bounds_fast o).
  - by apply (indices_in_bounds_fallback o).
Qed.

Lemma indices_in_bounds_period o p st :
  indices_in_bounds o p st = true → (0 <=? p) && (p <? 2) = true.
Proof.
  unfold indices_in_bounds, period_in_bounds.
  intros H. by apply andb_true_iff in H as [-> _].
Qed.

(** [side_rcu_read_begin] with all indices in bounds. *)
Lemma read_begin_run o st :
  begin_defined o st = true →
  ∃ old st',
    read_counter (begin_target o st) st = Some old ∧
    add_counter (begin_target o st) 1 st = Some (uintptr_add old 1, st') ∧
    side_rcu_read_begin o st = Done (period st) st' (begin_trace o st).
Proof.
  intros Hdef.
  destruct (begin_target_in_bounds o st Hdef) as [Hcpu Hper].
  destruct (add_counter_spec _ 1 st Hcpu Hper) as (old & st' & Hold & Hadd & _).
  exists old, st'. split; [done |]. split; [done |].
  unfold begin_defined in Hdef.
  pose proof (indices_in_bounds_period _ _ _ Hdef) as Hper'.
  unfold side_rcu_read_begin, begin_trace, bind, atomic_load_period,
    side_likely, side_unlikely, rseq_cpu_start, count_ref, rseq_addv,
    rseq_barrier, emit, sched_getcpu, atomic_add_fetch, ret.
  fold (rseq_on o). fold (rseq_cpu o). fold (fallback_cpu o).
  unfold begin_target, mk_ref in Hadd, Hcpu.
  destruct (fast_path o) eqn:Hf; unfold fast_path in Hf.
  - apply andb_true_iff in Hf as [Hon Hz]. rewrite Hon.
    simpl in Hcpu. rewrite (percpu_state_ref_run _ _ Hcpu).
    rewrite Hper', Hz, Hadd. simpl.
    apply Z.eqb_eq in Hz. by rewrite Hz.
  - simpl in Hcpu. destruct (rseq_on o) eqn:Hon; simpl in Hf.
    + rewrite (percpu_state_ref_run _ _ (indices_in_bounds_rseq o _ st Hdef Hon)).
      rewrite Hper', Hf. simpl. rewrite Hf.
      rewrite (percpu_state_ref_run _ _ Hcpu).
      by rewrite Hadd.
    + rewrite (percpu_state_ref_run _ _ Hcpu).
      by rewrite Hper', Hadd.
Qed.

(** [side_rcu_read_end] with all indices in bounds. *)
Lemma read_end_run o p st :
  end_defined o p st = true →
  ∃ old st',
    read_counter (end_target o p) st = Some old ∧
    add_counter (end_target o p) 1 st = Some (uintptr_add old 1, st') ∧
    side_rcu_read_end o p st =
      Done tt (woken st') (end_count_trace o p ++ wake_trace (futex_word st')).
Proof.
  intros Hdef.
  destruct (end_target_in_bounds o p st Hdef) as [Hcpu Hper].
  destruct (add_counter_spec _ 1 st Hcpu Hper) as (old & st' & Hold & Hadd & _).
  exists old, st'. split; [done |]. split; [done |].
  unfold end_defined in Hdef.
  pose proof (indices_in_bounds_period _ _ _ Hdef) as Hper'.
  unfold side_rcu_read_end, end_count_trace, bind, side_likely,
    side_unlikely, rseq_cpu_start, count_ref, rseq_addv, rseq_barrier,
    atomic_thread_fence, emit, sched_getcpu, atomic_add_fetch, ret.
  fold (rseq_on o). fold (rseq_cpu o). fold (fallback_cpu o).
  unfold end_target, mk_ref in Hadd, Hcpu.
  destruct (fast_path o) eqn:Hf; unfold fast_path in Hf.
  - apply andb_true_iff in Hf as [Hon Hz]. rewrite Hon.
    simpl in Hcpu. rewrite (percpu_state_ref_run _ _ Hcpu).
    rewrite Hper', Hz, Hadd. simpl. rewrite wake_up_gp_run.
    apply Z.eqb_eq in Hz. by rewrite Hz.
  - simpl in Hcpu. destruct (rseq_on o) eqn:Hon; simpl in Hf.
    + rewrite (percpu_state_ref_run _ _ (indices_in_bounds_rseq o _ st Hdef Hon)).
      rewrite Hper', Hf. simpl. rewrite Hf.
      rewrite (percpu_state_ref_run _ _ Hcpu).
      rewrite Hadd. simpl. by rewrite wake_up_gp_run.
    + rewrite (percpu_state_ref_run _ _ Hcpu).
      rewrite Hper', Hadd. simpl. by rewrite wake_up_gp_run.
Qed.

(** An index out of bounds leaves the calls without defined behaviour:
    [begin_defined] and [end_defined] are exactly the domains. *)
Lemma read_begin_undefined o st :
  begin_defined o st = false → side_rcu_read_begin o st = Undefined.
Proof.
  unfold begin_defined, indices_in_bounds, period_in_bounds.
  intros Hdef.
  unfold side_rcu_read_begin, bind, atomic_load_period,
    side_likely, side_unlikely, rseq_cpu_start, count_ref, rseq_addv,
    rseq_barrier, emit, sched_getcpu, atomic_add_fetch, ret.
  fold (rseq_on o). fold (rseq_cpu o). fold (fallback_cpu o).
  destruct ((0 <=? period st) && (period st <? 2)) eqn:Hper; simpl in Hdef.
  - destruct (rseq_on o).
    + destruct (cpu_in_bounds (rseq_cpu o) st) eqn:Hc; simpl in Hdef.
      * rewrite (percpu_state_ref_run _ _ Hc).
        destruct (addv_result o =? 0) eqn:Hz; [done |]. simpl. rewrite Hz.
        by rewrite (percpu_state_ref_undefined _ _ Hdef).
      * by rewrite (percpu_state_ref_undefined _ _ Hc).
    + by rewrite (percpu_state_ref_undefined _ _ Hdef).
  - destruct (rseq_on o).
    + destruct (percpu_state_ref (rseq_cpu o) st) as [a st1 t1 |]; [| done].
      simpl.
      destruct (cpu_in_bounds (rseq_cpu o) st);
        destruct (percpu_state_ref (fallback_cpu o) st); done.
    + by destruct (percpu_state_ref (fallback_cpu o) st).
Qed.

Lemma read_end_undefined o p st :
  end_defined o p st = false → side_rcu_read_end o p st = Undefined.
Proof.
  unfold end_defined, indices_in_bounds, period_in_bounds.
  intros Hdef.
  unfold side_rcu_read_end, bind, side_likely,
    side_unlikely, rseq_cpu_start, count_ref, rseq_addv, rseq_barrier,
    atomic_thread_fence, emit, sched_getcpu, atomic_add_fetch, ret.
  fold (rseq_on o). fold (rseq_cpu o). fold (fallback_cpu o).
  destruct ((0 <=? p) && (p <? 2)) eqn:Hper; simpl in Hdef.
  - destruct (rseq_on o).
    + destruct (cpu_in_bounds (rseq_cpu o) st) eqn:Hc; simpl in Hdef.
      * rewrite (percpu_state_ref_run _ _ Hc).
        destruct (addv_result o =? 0) eqn:Hz; [done |]. simpl. rewrite Hz.
        by rewrite (percpu_state_ref_undefined _ _ Hdef).
      * by rewrite (percpu_state_ref_undefined _ _ Hc).
    + by rewrite (percpu_state_ref_undefined _ _ Hdef).
  - destruct (rseq_on o).
    + destruct (percpu_state_ref (rseq_cpu o) st) as [a st1 t1 |]; [| done].
      simpl.
      destruct (cpu_in_bounds (rseq_cpu o) st);
        destruct (percpu_state_ref (fallback_cpu o) st); done.
    + by destruct (percpu_state_ref (fallback_cpu o) st).
Qed.

(** The two calls return exactly when their indices are in bounds. *)
Lemma read_begin_defined_iff o st :
  begin_defined o st = true ↔
  ∃ t st' tr, side_rcu_read_begin o st = Done t st' tr.
Proof.
  split.
  - intros H. destruct (read_begin_run o st H) as (old & st' & _ & _ & Hrun).
    eauto.
  - intros (t & st' & tr & Hrun).
    destruct (begin_defined o st) eqn:Hdef; [done |].
    rewrite (read_begin_undefined o st Hdef) in Hrun. done.
Qed.

Lemma read_end_defined_iff o p st :
  end_defined o p st = true ↔
  ∃ st' tr, side_rcu_read_end o p st = Done tt st' tr.
Proof.
  split.
  - intros H. destruct (read_end_run o p st H) as (old & st' & _ & _ & Hrun).
    eauto.
  - intros (st' & tr & Hrun).
    destruct (end_defined o p st) eqn:Hdef; [done |].
    rewrite (read_end_undefined o p st Hdef) in Hrun. done.
Qed.

(** Facts about the traces. *)

(** Splits membership in an explicit list of events into its cases. *)
Ltac trace_cases :=
  repeat match goal with
    | H : _ ∈ [] |- _ => by apply elem_of_nil in H
    | H : _ ∈ _ :: _ |- _ => apply elem_of_cons in H as [-> | H]
    | H : _ ∈ _ ++ _ |- _ => apply elem_of_app in H as [H | H]
    end.

Lemma wake_trace_locations v e :
  e ∈ wake_trace v → event_location e = Some Lfutex.
Proof.
  unfold wake_trace. intros H. destruct (v =? -1); by trace_cases.
Qed.

Lemma begin_trace_tail_locations o st e :
  e ∈ tail (begin_trace o st) →
  event_location e = None ∨
  event_location e = Some (Lcount (mk_ref (rseq_cpu o) (period st) Crseq_begin))
  ∨ event_location e = Some (Lcount (mk_ref (fallback_cpu o) (period st) Cbegin)).
Proof.
  unfold begin_trace. simpl. intros H.
  destruct (rseq_on o), (fast_path o); simpl in H; trace_cases; simpl; auto.
Qed.

Lemma end_count_trace_locations o p e :
  e ∈ end_count_trace o p →
  event_location e = None ∨
  event_location e = Some (Lcount (mk_ref (rseq_cpu o) p Crseq_end))
  ∨ event_location e = Some (Lcount (mk_ref (fallback_cpu o) p Cend)).
Proof.
  unfold end_count_trace. intros H.
  destruct (rseq_on o), (fast_path o); simpl in H; trace_cases; simpl; auto.
Qed.

Lemma add_counter_increments_only r v st st' :
  add_counter r 1 st = Some (v, st') →
  ∃ old, v = uintptr_add old 1 ∧ increments_only r old st st'.
Proof.
  intros Hadd.
  assert (His : is_Some (read_counter r st)).
  { unfold add_counter in Hadd.
    destruct (read_counter r st); [by eexists | done]. }
  apply read_counter_is_Some in His as [Hcpu Hper].
  destruct (add_counter_spec r 1 st Hcpu Hper)
    as (old & st'' & Hold & Hadd' & Hrest).
  rewrite Hadd in Hadd'. injection Hadd' as -> ->.
  exists old. split; [done |]. by split.
Qed.

Lemma woken_percpu_state st : percpu_state (woken st) = percpu_state st.
Proof. unfold woken. by destruct (futex_word st =? -1). Qed.

Lemma woken_read_counter r st : read_counter r (woken st) = read_counter r st.
Proof. unfold woken. by destruct (futex_word st =? -1). Qed.

Lemma woken_nr_cpus st : nr_cpus (woken st) = nr_cpus st.
Proof. unfold woken. by destruct (futex_word st =? -1). Qed.

Lemma woken_period st : period (woken st) = period st.
Proof. unfold woken. by destruct (futex_word st =? -1). Qed.

Lemma woken_gp_lock st : gp_lock (woken st) = gp_lock st.
Proof. unfold woken. by destruct (futex_word st =? -1). Qed.

Lemma woken_futex_word st :
  futex_word (woken st) = if futex_word st =? -1 then 0 else futex_word st.
Proof. unfold woken. by destruct (futex_word st =? -1). Qed.

(** [side_rcu_read_begin] in bounds: result, state and events. *)
Lemma read_begin_effect o st :
  begin_defined o st = true →
  ∃ old st',
    side_rcu_read_begin o st = Done (period st) st' (begin_trace o st) ∧
    increments_only (begin_target o st) old st st'.
Proof.
  intros Hdef.
  destruct (read_begin_run o st Hdef) as (old & st' & Hold & Hadd & Hrun).
  destruct (add_counter_increments_only _ _ _ _ Hadd) as (old' & _ & Hinc).
  eauto.
Qed.

(** [side_rcu_read_end] in bounds: state and events.  [st1] is the state
    at the label [end], before the wake-up check. *)
Lemma read_end_effect o p st :
  end_defined o p st = true →
  ∃ old st1,
    side_rcu_read_end o p st =
      Done tt (woken st1) (end_count_trace o p ++ wake_trace (futex_word st)) ∧
    increments_only (end_target o p) old st st1.
Proof.
  intros Hdef.
  destruct (read_end_run o p st Hdef) as (old & st' & Hold & Hadd & Hrun).
  destruct (add_counter_increments_only _ _ _ _ Hadd) as (old' & _ & Hinc).
  exists old', st'. split; [| done].
  destruct Hinc as (_ & _ & _ & _ & _ & Hfutex & _).
  by rewrite <- Hfutex.
Qed.

(** A reader that begins on CPU 0 and, having migrated, ends on CPU 1:
    both increments are recorded under the ticket, here period 0. *)
Example read_end_after_migration :
  ∃ st1 tr1 st2 tr2,
    side_rcu_read_begin (oracle_fast 0) init2 = Done 0 st1 tr1 ∧
    side_rcu_read_end (oracle_fast 1) 0 st1 = Done tt st2 tr2 ∧
    read_counter (mk_ref 0 0 Crseq_begin) st2 = Some 1 ∧
    read_counter (mk_ref 1 0 Crseq_end) st2 = Some 1 ∧
    read_counter (mk_ref 0 0 Crseq_end) st2 = Some 0.
Proof. by repeat eexists. Qed.

(** ** The ticket *)

(** C2: every call of [side_rcu_read_begin] whose indices are in bounds
    returns the value of [gp_state->period] that it loaded, once, with
    relaxed ordering, as the first thing it does; this holds whichever
    path the call takes, and the call leaves [period] as it was. *)
Theorem read_begin_returns_loaded_period o st :
  begin_defined o st = true →
  ∃ st' tr,
    side_rcu_read_begin o st =
      Done (period st) st' (AtomicLoad Lperiod RELAXED (period st) :: tr) ∧
    (∀ e, e ∈ tr → event_location e ≠ Some Lperiod) ∧
    period st' = period st.
Proof.
  intros Hdef.
  destruct (read_begin_effect o st Hdef) as (old & st' & Hrun & Hinc).
  exists st', (tail (begin_trace o st)).
  split; [exact Hrun |]. split.
  - intros e He Hloc.
    destruct (begin_trace_tail_locations o st e He) as [H | [H | H]];
      congruence.
  - by destruct Hinc as (_ & _ & _ & _ & _ & _ & Hp & _).
Qed.

Lemma read_begin_returns_loaded_period_witness :
  begin_defined (oracle_abort 1 0) init2 = true ∧
  ∃ st' tr,
    side_rcu_read_begin (oracle_abort 1 0) init2 =
      Done (period init2) st'
        (AtomicLoad Lperiod RELAXED (period init2) :: tr) ∧
    (∀ e, e ∈ tr → event_location e ≠ Some Lperiod) ∧
    period st' = period init2.
Proof.
  split; [reflexivity |].
  apply (read_begin_returns_loaded_period (oracle_abort 1 0) init2).
  reflexivity.
Defined.

(** ** The fallback path of read_begin *)

(** C3: when the capability flag is unset or [rseq_addv] aborts,
    [side_rcu_read_begin] calls [sched_getcpu], takes CPU 0 when the
    result is negative, and then adds 1 to the member [begin] of
    [count[period]] of that CPU with [__ATOMIC_SEQ_CST], [period] being
    the value loaded at entry.  Nothing before that writes to memory,
    and no other counter changes. *)
Theorem read_begin_fallback_increment o st :
  begin_defined o st = true →
  side_rcu_rseq_membarrier_available o = 0 ∨ addv_result o ≠ 0 →
  ∃ old st' pre,
    let cpu := if getcpu_result o <? 0 then 0 else getcpu_result o in
    let r := mk_ref cpu (period st) Cbegin in
    side_rcu_read_begin o st =
      Done (period st) st'
        (pre ++ [SchedGetcpu (getcpu_result o);
                 AtomicAddFetch (Lcount r) 1 SEQ_CST]) ∧
    (∀ e, e ∈ pre → is_write e = false) ∧
    read_counter r st = Some old ∧
    read_counter r st' = Some (uintptr_add old 1) ∧
    (∀ r', r' ≠ r → read_counter r' st' = read_counter r' st).
Proof.
  intros Hdef Hslow.
  assert (Hf : fast_path o = false).
  { unfold fast_path, rseq_on. destruct Hslow as [-> | Hne]; [done |].
    apply andb_false_iff. right. by apply Z.eqb_neq. }
  destruct (read_begin_effect o st Hdef) as (old & st' & Hrun & Hinc).
  unfold begin_target in Hinc. rewrite Hf in Hinc.
  unfold begin_trace in Hrun. rewrite Hf in Hrun.
  destruct Hinc as (Hold & Hnew & Hother & _).
  exists old, st'.
  eexists (AtomicLoad Lperiod RELAXED (period st) :: _).
  simpl. split; [exact Hrun |].
  split; [| by fold (fallback_cpu o)].
  intros e He. apply elem_of_cons in He as [-> | He]; [done |].
  destruct (rseq_on o) eqn:Hon; [| by trace_cases].
  unfold fast_path in Hf. rewrite Hon in Hf. simpl in Hf.
  trace_cases; [done |]. simpl. exact Hf.
Qed.

Lemma read_begin_fallback_increment_witness :
  ∃ old st' pre,
    side_rcu_read_begin (oracle_abort 1 (-1)) init2 =
      Done 0 st'
        (pre ++ [SchedGetcpu (-1);
                 AtomicAddFetch (Lcount (mk_ref 0 0 Cbegin)) 1 SEQ_CST]) ∧
    (∀ e, e ∈ pre → is_write e = false) ∧
    read_counter (mk_ref 0 0 Cbegin) init2 = Some old ∧
    read_counter (mk_ref 0 0 Cbegin) st' = Some (uintptr_add old 1) ∧
    (∀ r', r' ≠ mk_ref 0 0 Cbegin →
           read_counter r' st' = read_counter r' init2).
Proof.
  apply (read_begin_fallback_increment (oracle_abort 1 (-1)) init2).
  - reflexivity.
  - right. simpl. lia.
Defined.

(** ** read_end *)

(** C4: for every ticket [t], a call of [side_rcu_read_end] whose indices
    are in bounds adds 1 to an end counter of [count[t]] of some CPU:
    [rseq_end] when the restartable increment commits, [end] on the
    fallback.  It issues no access to [gp_state->period], every counter
    it addresses is an end counter of period [t], and every other
    counter, so every begin counter, keeps its value.  The CPU is the
    one current at the call, not the one of the matching begin. *)
Theorem read_end_counts_under_ticket o t st :
  end_defined o t st = true →
  ∃ cpu m old st' tr,
    side_rcu_read_end o t st = Done tt st' tr ∧
    (fast_path o = true ∧ m = Crseq_end ∧ cpu = rseq_cpu o ∨
     fast_path o = false ∧ m = Cend ∧ cpu = fallback_cpu o) ∧
    read_counter (mk_ref cpu t m) st = Some old ∧
    read_counter (mk_ref cpu t m) st' = Some (uintptr_add old 1) ∧
    (∀ r', r' ≠ mk_ref cpu t m → read_counter r' st' = read_counter r' st) ∧
    (∀ e, e ∈ tr → event_location e ≠ Some Lperiod) ∧
    (∀ e r, e ∈ tr → event_location e = Some (Lcount r) →
            ref_period r = t ∧
            (ref_member r = Cend ∨ ref_member r = Crseq_end)) ∧
    period st' = period st.
Proof.
  intros Hdef.
  destruct (read_end_effect o t st Hdef) as (old & st1 & Hrun & Hinc).
  destruct Hinc as (Hold & Hnew & Hother & _ & _ & _ & Hper & _).
  exists (ref_cpu (end_target o t)), (ref_member (end_target o t)), old.
  eexists _, _. split; [exact Hrun |].
  assert (Hr : mk_ref (ref_cpu (end_target o t)) t
                 (ref_member (end_target o t)) = end_target o t).
  { unfold end_target. by destruct (fast_path o). }
  rewrite Hr.
  split; [unfold end_target; destruct (fast_path o); simpl; auto |].
  split; [done |].
  split; [by rewrite woken_read_counter |].
  split; [intros r' Hne; rewrite woken_read_counter; by apply Hother |].
  split; [| split; [| by rewrite woken_period]].
  - intros e He Hloc. apply elem_of_app in He as [He | He].
    + destruct (end_count_trace_locations o t e He) as [H | [H | H]];
        congruence.
    + apply wake_trace_locations in He. congruence.
  - intros e r He Hloc. apply elem_of_app in He as [He | He].
    + destruct (end_count_trace_locations o t e He) as [H | [H | H]];
        rewrite H in Hloc; [done | |]; injection Hloc as <-; simpl; auto.
    + apply wake_trace_locations in He. congruence.
Qed.

Lemma read_end_counts_under_ticket_witness :
  ∃ cpu m old st' tr,
    side_rcu_read_end (oracle_fast 1) 1 init2 = Done tt st' tr ∧
    (fast_path (oracle_fast 1) = true ∧ m = Crseq_end ∧
       cpu = rseq_cpu (oracle_fast 1) ∨
     fast_path (oracle_fast 1) = false ∧ m = Cend ∧
       cpu = fallback_cpu (oracle_fast 1)) ∧
    read_counter (mk_ref cpu 1 m) init2 = Some old ∧
    read_counter (mk_ref cpu 1 m) st' = Some (uintptr_add old 1) ∧
    (∀ r', r' ≠ mk_ref cpu 1 m →
           read_counter r' st' = read_counter r' init2) ∧
    (∀ e, e ∈ tr → event_location e ≠ Some Lperiod) ∧
    (∀ e r, e ∈ tr → event_location e = Some (Lcount r) →
            ref_period r = 1 ∧
            (ref_member r = Cend ∨ ref_member r = Crseq_end)) ∧
    period st' = period init2.
Proof.
  apply (read_end_counts_under_ticket (oracle_fast 1) 1 init2).
  reflexivity.
Defined.

(** ** The wake-up check *)

(** C5: on either path, [side_rcu_read_end] loads the futex cell after it
    has incremented its end counter.  When the cell holds -1 the call
    stores 0 to it and makes one [FUTEX_WAKE] system call that wakes one
    waiter; otherwise the cell keeps its value and there is no system
    call at all.  Nothing before the load touches the cell. *)
Theorem read_end_wake_up o t st :
  end_defined o t st = true →
  ∃ st' pre,
    side_rcu_read_end o t st =
      Done tt st'
        (pre ++ AtomicLoad Lfutex RELAXED (futex_word st) ::
           (if futex_word st =? -1
            then [AtomicStore Lfutex 0 RELAXED; SysFutex Lfutex FUTEX_WAKE 1 None None 0]
            else [])) ∧
    (∃ e, e ∈ pre ∧ is_write e = true ∧
          event_location e = Some (Lcount (end_target o t))) ∧
    (∀ e, e ∈ pre → is_wake e = false ∧ event_location e ≠ Some Lfutex) ∧
    futex_word st' = (if futex_word st =? -1 then 0 else futex_word st).
Proof.
  intros Hdef.
  destruct (read_end_effect o t st Hdef) as (old & st1 & Hrun & Hinc).
  destruct Hinc as (_ & _ & _ & _ & _ & Hfutex & _).
  exists (woken st1), (end_count_trace o t).
  split; [exact Hrun |].
  split; [| split].
  - unfold end_count_trace, end_target.
    destruct (fast_path o) eqn:Hf.
    + unfold fast_path in Hf. apply andb_true_iff in Hf as [Hon Hz].
      rewrite Hon. eexists. split; [| split].
      * apply elem_of_app. left. do 2 apply list_elem_of_further.
        apply list_elem_of_here.
      * done.
      * done.
    + eexists. split; [| split].
      * apply elem_of_app. right. apply list_elem_of_further.
        apply list_elem_of_here.
      * done.
      * done.
  - intros e He. unfold end_count_trace in He.
    destruct (rseq_on o), (fast_path o); simpl in He; trace_cases; done.
  - by rewrite woken_futex_word, Hfutex.
Qed.

Lemma read_end_wake_up_witness :
  ∃ st' pre,
    side_rcu_read_end (oracle_slow 1) 0 (with_futex_word (-1) init2) =
      Done tt st'
        (pre ++ AtomicLoad Lfutex RELAXED (-1) ::
           [AtomicStore Lfutex 0 RELAXED; SysFutex Lfutex FUTEX_WAKE 1 None None 0]) ∧
    (∃ e, e ∈ pre ∧ is_write e = true ∧
          event_location e = Some (Lcount (end_target (oracle_slow 1) 0))) ∧
    (∀ e, e ∈ pre → is_wake e = false ∧ event_location e ≠ Some Lfutex) ∧
    futex_word st' = 0.
Proof.
  apply (read_end_wake_up (oracle_slow 1) 0 (with_futex_word (-1) init2)).
  reflexivity.
Defined.

(** ** Publishing and consuming a handle *)

(** The memory orders the two macros ask for, as written in the header:
    [side_rcu_assign_pointer(p, v)] is one store of [v] to [p] with
    [__ATOMIC_RELEASE], and [side_rcu_dereference(p)] is one load of [p]
    with [__ATOMIC_CONSUME].  What these orders guarantee between
    threads is a matter of the memory model and is not expressed here. *)
Lemma assign_dereference_orders p v :
  snd (side_rcu_assign_pointer p v) = [AtomicStore Lhandle v RELEASE] ∧
  snd (side_rcu_dereference v) = [AtomicLoad Lhandle CONSUME v].
Proof. done. Qed.

(** ** No failure on the reader path *)

(** C7: with the indices in bounds, [side_rcu_read_begin] returns, and
    what it returns is the ticket, the period it loaded; and
    [side_rcu_read_end] returns.  Neither result carries an error.  When
    the fallback runs and [sched_getcpu] gives a negative number, the
    call goes on and increments the counter of CPU 0. *)
Theorem reader_calls_never_fail o t st :
  begin_defined o st = true →
  end_defined o t st = true →
  (∃ st' tr,
     side_rcu_read_begin o st = Done (period st) st' tr ∧
     (fast_path o = false → getcpu_result o < 0 →
      ∃ old, increments_only (mk_ref 0 (period st) Cbegin) old st st')) ∧
  (∃ st' tr,
     side_rcu_read_end o t st = Done tt st' tr ∧
     (fast_path o = false → getcpu_result o < 0 →
      ∃ old,
        read_counter (mk_ref 0 t Cend) st = Some old ∧
        read_counter (mk_ref 0 t Cend) st' = Some (uintptr_add old 1))).
Proof.
  intros Hb He. split.
  - destruct (read_begin_effect o st Hb) as (old & st' & Hrun & Hinc).
    exists st', (begin_trace o st). split; [done |].
    intros Hf Hneg. exists old.
    unfold begin_target in Hinc. rewrite Hf in Hinc.
    unfold fallback_cpu in Hinc.
    by destruct (Z.ltb_spec (getcpu_result o) 0); [| lia].
  - destruct (read_end_effect o t st He) as (old & st1 & Hrun & Hinc).
    eexists _, _. split; [exact Hrun |].
    intros Hf Hneg. exists old.
    unfold end_target in Hinc. rewrite Hf in Hinc.
    unfold fallback_cpu in Hinc.
    destruct (Z.ltb_spec (getcpu_result o) 0); [| lia].
    destruct Hinc as (Hold & Hnew & _).
    by rewrite woken_read_counter.
Qed.

Lemma reader_calls_never_fail_witness :
  (∃ st' tr,
     side_rcu_read_begin (oracle_slow (-1)) init2 =
       Done (period init2) st' tr ∧
     (fast_path (oracle_slow (-1)) = false →
      getcpu_result (oracle_slow (-1)) < 0 →
      ∃ old, increments_only (mk_ref 0 (period init2) Cbegin) old init2 st')) ∧
  (∃ st' tr,
     side_rcu_read_end (oracle_slow (-1)) 1 init2 = Done tt st' tr ∧
     (fast_path (oracle_slow (-1)) = false →
      getcpu_result (oracle_slow (-1)) < 0 →
      ∃ old,
        read_counter (mk_ref 0 1 Cend) init2 = Some old ∧
        read_counter (mk_ref 0 1 Cend) st' = Some (uintptr_add old 1))).
Proof.
  apply (reader_calls_never_fail (oracle_slow (-1)) 1 init2); reflexivity.
Defined.

(** ** Counters over time *)

(** C8, as stated, fails where a counter holds [UINTPTR_MAX]: the next
    [side_rcu_read_begin] on that CPU and period takes it to 0. *)
Lemma counter_decreases_at_wrap :
  ¬ (∀ st st' r old new,
       reader_step st st' →
       read_counter r st = Some old →
       read_counter r st' = Some new →
       old <= new).
Proof.
  intros H.
  assert (Hstep : reader_step saturated (with_percpu_state [zero_cpu] saturated)).
  { apply (step_read_begin _ _ (oracle_slow 0) 0
             (begin_trace (oracle_slow 0) saturated)).
    vm_compute. reflexivity. }
  apply (H _ _ (mk_ref 0 0 Cbegin) UINTPTR_MAX 0) in Hstep;
    [| reflexivity ..].
  vm_compute in Hstep. by apply Hstep.
Qed.

Lemma uintptr_add_1_below old :
  0 <= old < UINTPTR_MAX → uintptr_add old 1 = old + 1.
Proof.
  unfold uintptr_add, UINTPTR_MAX. intros H. apply Z.mod_small. lia.
Qed.

(** A reader step increments one counter and keeps the others. *)
Lemma reader_step_increments_only st st' :
  reader_step st st' →
  ∃ r old st1,
    increments_only r old st st1 ∧ (st' = st1 ∨ st' = woken st1).
Proof.
  intros [o t tr Hrun | o p tr Hrun].
  - assert (Hdef : begin_defined o st = true)
      by (apply read_begin_defined_iff; eauto).
    destruct (read_begin_effect o st Hdef) as (old & st1 & Hrun' & Hinc).
    rewrite Hrun in Hrun'. injection Hrun' as _ -> _. eauto 6.
  - assert (Hdef : end_defined o p st = true)
      by (apply read_end_defined_iff; eauto).
    destruct (read_end_effect o p st Hdef) as (old & st1 & Hrun' & Hinc).
    rewrite Hrun in Hrun'. injection Hrun' as -> _. eauto 6.
Qed.

(** C8, amended: a call of [side_rcu_read_begin] or [side_rcu_read_end]
    leaves each counter as it was or adds 1 to it in [uintptr_t]
    arithmetic, that is modulo 2^64.  So a counter below [UINTPTR_MAX]
    never decreases; the only way down is the wrap from [UINTPTR_MAX]
    to 0. *)
Theorem reader_step_adds_one_modulo st st' r old :
  reader_step st st' →
  read_counter r st = Some old →
  ∃ new,
    read_counter r st' = Some new ∧
    (new = old ∨ new = uintptr_add old 1) ∧
    (0 <= old < UINTPTR_MAX → old <= new <= old + 1).
Proof.
  intros Hstep Hold.
  destruct (reader_step_increments_only st st' Hstep)
    as (r0 & old0 & st1 & Hinc & Hst').
  destruct Hinc as (Hold0 & Hnew0 & Hother & _).
  assert (Hread : read_counter r st' = read_counter r st1).
  { destruct Hst' as [-> | ->]; [done | apply woken_read_counter]. }
  rewrite Hread.
  destruct (decide (r = r0)) as [-> | Hne].
  - rewrite Hold in Hold0. injection Hold0 as <-.
    exists (uintptr_add old 1). split; [done |]. split; [by right |].
    intros Hrange. rewrite uintptr_add_1_below by done. lia.
  - exists old. rewrite (Hother r Hne). split; [done |].
    split; [by left | lia].
Qed.

Lemma reader_step_adds_one_modulo_witness :
  ∃ new,
    read_counter (mk_ref 1 0 Crseq_begin)
      (with_percpu_state
         [zero_cpu;
          {| count := ({| begin := 0; rseq_begin := 1;
                          end_ := 0; rseq_end := 0 |}, zero_count) |}]
         init2) = Some new ∧
    (new = 0 ∨ new = uintptr_add 0 1) ∧
    (0 <= 0 < UINTPTR_MAX → 0 <= new <= 0 + 1).
Proof.
  apply (reader_step_adds_one_modulo init2).
  - apply (step_read_begin _ _ (oracle_fast 1) 0
             (begin_trace (oracle_fast 1) init2)).
    reflexivity.
  - reflexivity.
Defined.

(** ** Frame *)

(** The writes of the two calls before the wake-up check. *)
Lemma begin_trace_writes o st e :
  e ∈ begin_trace o st → is_write e = true →
  event_location e = Some (Lcount (begin_target o st)).
Proof.
  unfold begin_trace, begin_target, fast_path.
  destruct (rseq_on o); destruct (addv_result o =? 0) eqn:Hz; simpl;
    intros Hin Hw; trace_cases; simpl in Hw; try done; congruence.
Qed.

Lemma end_count_trace_writes o p e :
  e ∈ end_count_trace o p → is_write e = true →
  event_location e = Some (Lcount (end_target o p)).
Proof.
  unfold end_count_trace, end_target, fast_path.
  destruct (rseq_on o); destruct (addv_result o =? 0) eqn:Hz; simpl;
    intros Hin Hw; trace_cases; simpl in Hw; try done; congruence.
Qed.

Lemma increments_only_changes r old st st' :
  increments_only r old st st' →
  ∀ r', read_counter r' st' ≠ read_counter r' st ↔ r' = r.
Proof.
  intros (Hold & Hnew & Hother & _) r'. split.
  - intros Hch. destruct (decide (r' = r)) as [-> | Hne]; [done |].
    by specialize (Hother r' Hne).
  - intros ->. rewrite Hold, Hnew. intros [= Heq].
    by apply uintptr_add_1_ne in Heq.
Qed.

(** C9: a call of [side_rcu_read_begin] or of [side_rcu_read_end] with
    its indices in bounds adds 1, in [uintptr_t] arithmetic, to one
    member of one [count[period]] of one CPU and changes no other
    counter.  Neither call changes [period], [nr_cpus] or the extent of
    [percpu_state], and [side_rcu_read_begin] does not change the futex
    cell: its one write is the counter increment. *)
Theorem reader_call_frame o t st :
  begin_defined o st = true →
  end_defined o t st = true →
  (∃ r old st' tr,
     side_rcu_read_begin o st = Done (period st) st' tr ∧
     one_counter_incremented r old st st' ∧
     futex_word st' = futex_word st ∧
     (∀ e, e ∈ tr → is_write e = true → event_location e = Some (Lcount r))) ∧
  (∃ r old st' tr,
     side_rcu_read_end o t st = Done tt st' tr ∧
     one_counter_incremented r old st st' ∧
     (∀ e, e ∈ tr → is_write e = true →
           event_location e = Some (Lcount r) ∨
           event_location e = Some Lfutex)).
Proof.
  intros Hb He. split.
  - destruct (read_begin_effect o st Hb) as (old & st' & Hrun & Hinc).
    exists (begin_target o st), old, st', (begin_trace o st).
    split; [done |].
    pose proof (increments_only_changes _ _ _ _ Hinc) as Hch.
    destruct Hinc as (Hold & Hnew & _ & Hlen & Hnr & Hfx & Hper & Hlock).
    split; [by split_and! |]. split; [done |].
    apply begin_trace_writes.
  - destruct (read_end_effect o t st He) as (old & st1 & Hrun & Hinc).
    exists (end_target o t), old. eexists _, _.
    split; [exact Hrun |].
    pose proof (increments_only_changes _ _ _ _ Hinc) as Hch.
    destruct Hinc as (Hold & Hnew & _ & Hlen & Hnr & Hfx & Hper & Hlock).
    split.
    + unfold one_counter_incremented.
      rewrite woken_read_counter, woken_percpu_state, woken_nr_cpus,
        woken_period, woken_gp_lock.
      split_and!; try done.
      intros r'. rewrite woken_read_counter. apply Hch.
    + intros e Hin Hw. apply elem_of_app in Hin as [Hin | Hin].
      * left. by apply end_count_trace_writes.
      * right. by apply wake_trace_locations in Hin.
Qed.

Lemma reader_call_frame_witness :
  (∃ r old st' tr,
     side_rcu_read_begin (oracle_fast 1) init2 =
       Done (period init2) st' tr ∧
     one_counter_incremented r old init2 st' ∧
     futex_word st' = futex_word init2 ∧
     (∀ e, e ∈ tr → is_write e = true → event_location e = Some (Lcount r))) ∧
  (∃ r old st' tr,
     side_rcu_read_end (oracle_fast 1) 0 init2 = Done tt st' tr ∧
     one_counter_incremented r old init2 st' ∧
     (∀ e, e ∈ tr → is_write e = true →
           event_location e = Some (Lcount r) ∨
           event_location e = Some Lfutex)).
Proof.
  apply (reader_call_frame (oracle_fast 1) 0 init2); reflexivity.
Defined.

(** ** Array bounds *)

Lemma int_of_uint32_small u : 0 <= u < 2 ^ 31 → int_of_uint32 u = u.
Proof.
  intros H. unfold int_of_uint32.
  rewrite Z.mod_small by lia.
  destruct (Z.ltb_spec u (2 ^ 31)); [done | lia].
Qed.

Lemma cpu_ids_below_in_bounds o st :
  Z.of_nat (length (percpu_state st)) <= INT_MAX →
  cpu_ids_below o (Z.of_nat (length (percpu_state st))) →
  cpu_in_bounds (rseq_cpu o) st = true ∧
  cpu_in_bounds (fallback_cpu o) st = true.
Proof.
  unfold INT_MAX. intros Hmax [Hrseq Hget].
  rewrite !cpu_in_bounds_spec. unfold rseq_cpu, fallback_cpu.
  rewrite int_of_uint32_small by lia.
  destruct (Z.ltb_spec (getcpu_result o) 0); lia.
Qed.

Lemma indices_in_bounds_intro o p st :
  p = 0 ∨ p = 1 →
  cpu_in_bounds (rseq_cpu o) st = true →
  cpu_in_bounds (fallback_cpu o) st = true →
  indices_in_bounds o p st = true.
Proof.
  intros Hp Hr Hf. unfold indices_in_bounds.
  rewrite (proj2 (period_in_bounds_spec p) Hp), Hr, Hf.
  by destruct (rseq_on o), (addv_result o =? 0).
Qed.

(** C10: let [period] be 0 or 1, let [percpu_state] have [nr_cpus]
    elements, [nr_cpus] being an [int], and let the CPU numbers given by
    [rseq_cpu_start] and by [sched_getcpu] (negative results replaced by
    0) be below [nr_cpus].  Then [side_rcu_read_begin] returns a ticket
    [t], [side_rcu_read_end] called with [t] returns, and every counter
    the two calls address has its CPU index in [0, nr_cpus) and its
    period index in [0, 2). *)
Theorem reader_indices_in_bounds o1 o2 st :
  period st = 0 ∨ period st = 1 →
  Z.of_nat (length (percpu_state st)) = nr_cpus st →
  nr_cpus st <= INT_MAX →
  cpu_ids_below o1 (nr_cpus st) →
  cpu_ids_below o2 (nr_cpus st) →
  ∃ t st1 tr1 st2 tr2,
    side_rcu_read_begin o1 st = Done t st1 tr1 ∧
    side_rcu_read_end o2 t st1 = Done tt st2 tr2 ∧
    ∀ e r, e ∈ tr1 ++ tr2 → event_location e = Some (Lcount r) →
           0 <= ref_cpu r < nr_cpus st ∧ 0 <= ref_period r < 2.
Proof.
  intros Hper Hlen Hmax Hb1 Hb2. rewrite <- Hlen in *.
  destruct (cpu_ids_below_in_bounds o1 st Hmax Hb1) as [Hr1 Hf1].
  destruct (cpu_ids_below_in_bounds o2 st Hmax Hb2) as [Hr2 Hf2].
  pose proof (indices_in_bounds_intro o1 _ st Hper Hr1 Hf1) as Hdef1.
  destruct (read_begin_effect o1 st Hdef1) as (old & st1 & Hrun1 & Hinc1).
  destruct Hinc1 as (_ & _ & _ & Hlen1 & _).
  assert (Hsame : ∀ cpu, cpu_in_bounds cpu st1 = cpu_in_bounds cpu st).
  { intros cpu. unfold cpu_in_bounds. by rewrite Hlen1. }
  assert (Hdef2 : end_defined o2 (period st) st1 = true).
  { apply indices_in_bounds_intro; [done | by rewrite Hsame ..]. }
  destruct (read_end_effect o2 _ st1 Hdef2) as (old2 & st2 & Hrun2 & _).
  eexists _, _, _, _, _. split; [exact Hrun1 |]. split; [exact Hrun2 |].
  apply cpu_in_bounds_spec in Hr1, Hf1, Hr2, Hf2.
  assert (Hp2 : 0 <= period st < 2) by lia.
  intros e r Hin Hloc.
  apply elem_of_app in Hin as [Hin | Hin].
  - unfold begin_trace in Hin. apply elem_of_cons in Hin as [-> | Hin];
      [done |].
    destruct (begin_trace_tail_locations o1 st e Hin) as [H | [H | H]];
      rewrite H in Hloc; [done | |]; injection Hloc as <-; done.
  - apply elem_of_app in Hin as [Hin | Hin].
    + destruct (end_count_trace_locations o2 (period st) e Hin)
        as [H | [H | H]];
        rewrite H in Hloc; [done | |]; injection Hloc as <-; done.
    + apply wake_trace_locations in Hin. congruence.
Qed.

Lemma reader_indices_in_bounds_witness :
  ∃ t st1 tr1 st2 tr2,
    side_rcu_read_begin (oracle_fast 1) init2 = Done t st1 tr1 ∧
    side_rcu_read_end (oracle_abort 0 (-1)) t st1 = Done tt st2 tr2 ∧
    ∀ e r, e ∈ tr1 ++ tr2 → event_location e = Some (Lcount r) →
           0 <= ref_cpu r < nr_cpus init2 ∧ 0 <= ref_period r < 2.
Proof.
  apply (reader_indices_in_bounds (oracle_fast 1) (oracle_abort 0 (-1)) init2).
  - left. reflexivity.
  - reflexivity.
  - unfold INT_MAX. simpl. lia.
  - split; simpl; lia.
  - split; simpl; lia.
Defined.

(** ** The wake-up on its own *)

(** X1: [side_rcu_wake_up_gp] changes nothing but the futex cell, and
    never leaves -1 in it; called again right away it only loads the
    cell: no store, no system call. *)
Theorem wake_up_gp_idempotent o o' st :
  ∃ st' tr,
    side_rcu_wake_up_gp o st = Done tt st' tr ∧
    futex_word st' = (if futex_word st =? -1 then 0 else futex_word st) ∧
    futex_word st' ≠ -1 ∧
    percpu_state st' = percpu_state st ∧
    nr_cpus st' = nr_cpus st ∧
    period st' = period st ∧
    gp_lock st' = gp_lock st ∧
    side_rcu_wake_up_gp o' st' =
      Done tt st' [AtomicLoad Lfutex RELAXED (futex_word st')].
Proof.
  eexists _, _. split; [apply wake_up_gp_run |].
  rewrite woken_futex_word, woken_percpu_state, woken_nr_cpus,
    woken_period, woken_gp_lock.
  assert (Hne : (if futex_word st =? -1 then 0 else futex_word st) ≠ -1).
  { destruct (Z.eqb_spec (futex_word st) (-1)); [lia | done]. }
  split_and!; try done.
  rewrite wake_up_gp_run. unfold wake_trace, woken at 1.
  rewrite woken_futex_word.
  destruct (Z.eqb_spec (if futex_word st =? -1 then 0 else futex_word st)
              (-1)); [done | by rewrite app_nil_r || done].
Qed.

(** ** Where the calls are undefined *)

Lemma indices_in_bounds_false o p st :
  indices_in_bounds o p st = false ↔
  ¬ (0 <= p < 2) ∨
  (side_rcu_rseq_membarrier_available o ≠ 0 ∧
   ¬ (0 <= rseq_cpu o < Z.of_nat (length (percpu_state st)))) ∨
  ((side_rcu_rseq_membarrier_available o = 0 ∨ addv_result o ≠ 0) ∧
   ¬ (0 <= fallback_cpu o < Z.of_nat (length (percpu_state st)))).
Proof.
  unfold indices_in_bounds, period_in_bounds, cpu_in_bounds, rseq_on.
  destruct (Z.eqb_spec (side_rcu_rseq_membarrier_available o) 0);
    destruct (Z.eqb_spec (addv_result o) 0); simpl;
    rewrite ?andb_false_iff, ?andb_true_r, ?andb_false_iff; lia.
Qed.

(** X2: the two functions check no index.  [side_rcu_read_begin] has no
    defined behaviour exactly when [period] is not 0 or 1, or the flag is
    set and the CPU number of [rseq_cpu_start] is outside
    [percpu_state], or the fallback runs and the CPU number of
    [sched_getcpu] (0 for a negative one) is outside it; the same holds
    of [side_rcu_read_end] with the ticket in place of [period]. *)
Theorem reader_calls_undefined_iff o p st :
  let n := Z.of_nat (length (percpu_state st)) in
  let out q :=
    ¬ (0 <= q < 2) ∨
    (side_rcu_rseq_membarrier_available o ≠ 0 ∧ ¬ (0 <= rseq_cpu o < n)) ∨
    ((side_rcu_rseq_membarrier_available o = 0 ∨ addv_result o ≠ 0) ∧
     ¬ (0 <= fallback_cpu o < n)) in
  (side_rcu_read_begin o st = Undefined ↔ out (period st)) ∧
  (side_rcu_read_end o p st = Undefined ↔ out p).
Proof.
  simpl. split.
  - rewrite <- indices_in_bounds_false. fold (begin_defined o st). split.
    + intros Hu. destruct (begin_defined o st) eqn:Hd; [| done].
      destruct (read_begin_run o st Hd) as (? & ? & _ & _ & Hrun).
      congruence.
    + apply read_begin_undefined.
  - rewrite <- indices_in_bounds_false. fold (end_defined o p st). split.
    + intros Hu. destruct (end_defined o p st) eqn:Hd; [| done].
      destruct (read_end_run o p st Hd) as (? & ? & _ & _ & Hrun).
      congruence.
    + apply read_end_undefined.
Qed.

(** A ticket that no [side_rcu_read_begin] can have returned. *)
Lemma reader_calls_undefined_iff_witness :
  side_rcu_read_end (oracle_fast 0) 2 init2 = Undefined.
Proof.
  apply (reader_calls_undefined_iff (oracle_fast 0) 2 init2).
  left. lia.
Defined.

(** ** The restartable path *)

(** X3: when the flag is set and [rseq_addv] commits,
    [side_rcu_read_begin] does four things and nothing else: the relaxed
    load of [period], [rseq_cpu_start], the restartable addition of 1 to
    [rseq_begin] of [count[period]] of that CPU, and the compiler
    barrier (A) after it.  There is no atomic read-modify-write, no
    fence instruction and no call into libc or the kernel. *)
Theorem read_begin_fast_path o st :
  begin_defined o st = true →
  fast_path o = true →
  ∃ old st' tr,
    let r := mk_ref (rseq_cpu o) (period st) Crseq_begin in
    side_rcu_read_begin o st = Done (period st) st' tr ∧
    tr = [AtomicLoad Lperiod RELAXED (period st);
          RseqCpuStart (cpu_start o);
          RseqAddv (Lcount r) 1 (rseq_cpu o) 0;
          RseqBarrier] ∧
    (∀ e, e ∈ tr → is_heavy e = false) ∧
    increments_only r old st st'.
Proof.
  intros Hdef Hf.
  destruct (read_begin_effect o st Hdef) as (old & st' & Hrun & Hinc).
  unfold begin_target in Hinc. unfold begin_trace in Hrun.
  rewrite Hf in Hinc, Hrun.
  unfold fast_path in Hf. apply andb_true_iff in Hf as [Hon Hz].
  rewrite Hon in Hrun. apply Z.eqb_eq in Hz. rewrite Hz in Hrun.
  exists old, st'. eexists. simpl.
  split; [exact Hrun |]. split; [done |]. split; [| done].
  intros e He. by trace_cases.
Qed.

Lemma read_begin_fast_path_witness :
  ∃ old st' tr,
    side_rcu_read_begin (oracle_fast 1) init2 = Done 0 st' tr ∧
    tr = [AtomicLoad Lperiod RELAXED 0;
          RseqCpuStart 1;
          RseqAddv (Lcount (mk_ref 1 0 Crseq_begin)) 1 1 0;
          RseqBarrier] ∧
    (∀ e, e ∈ tr → is_heavy e = false) ∧
    increments_only (mk_ref 1 0 Crseq_begin) old init2 st'.
Proof.
  apply (read_begin_fast_path (oracle_fast 1) init2); reflexivity.
Defined.



(** ** With the capability flag unset *)

(** X5: with [side_rcu_rseq_membarrier_available] equal to 0 neither
    call uses librseq: there is no [rseq_cpu_start], no [rseq_addv] and
    no [rseq_barrier], and no [rseq_begin] or [rseq_end] counter changes
    on any CPU or period. *)
Theorem flag_unset_no_rseq o p st :
  side_rcu_rseq_membarrier_available o = 0 →
  begin_defined o st = true →
  end_defined o p st = true →
  (∃ st' tr,
     side_rcu_read_begin o st = Done (period st) st' tr ∧
     (∀ e, e ∈ tr → is_rseq e = false) ∧
     (∀ cpu q,
        read_counter (mk_ref cpu q Crseq_begin) st' =
          read_counter (mk_ref cpu q Crseq_begin) st ∧
        read_counter (mk_ref cpu q Crseq_end) st' =
          read_counter (mk_ref cpu q Crseq_end) st)) ∧
  (∃ st' tr,
     side_rcu_read_end o p st = Done tt st' tr ∧
     (∀ e, e ∈ tr → is_rseq e = false) ∧
     (∀ cpu q,
        read_counter (mk_ref cpu q Crseq_begin) st' =
          read_counter (mk_ref cpu q Crseq_begin) st ∧
        read_counter (mk_ref cpu q Crseq_end) st' =
          read_counter (mk_ref cpu q Crseq_end) st)).
Proof.
  intros Hflag Hb He.
  assert (Hon : rseq_on o = false) by (unfold rseq_on; by rewrite Hflag).
  assert (Hf : fast_path o = false) by (unfold fast_path; by rewrite Hon).
  split.
  - destruct (read_begin_effect o st Hb) as (old & st' & Hrun & Hinc).
    unfold begin_target in Hinc. unfold begin_trace in Hrun.
    rewrite Hf in Hinc, Hrun. rewrite Hon in Hrun.
    destruct Hinc as (_ & _ & Hother & _).
    eexists _, _. split; [exact Hrun |]. split.
    + intros e Hin. simpl in Hin. by trace_cases.
    + intros cpu q. by split; apply Hother.
  - destruct (read_end_effect o p st He) as (old & st1 & Hrun & Hinc).
    unfold end_target in Hinc. unfold end_count_trace in Hrun.
    rewrite Hf in Hinc, Hrun. rewrite Hon in Hrun.
    destruct Hinc as (_ & _ & Hother & _).
    eexists _, _. split; [exact Hrun |]. split.
    + intros e Hin. unfold wake_trace in Hin. simpl in Hin.
      destruct (futex_word st =? -1); by trace_cases.
    + intros cpu q. rewrite !woken_read_counter. by split; apply Hother.
Qed.

Lemma flag_unset_no_rseq_witness :
  (∃ st' tr,
     side_rcu_read_begin (oracle_slow 1) init2 = Done (period init2) st' tr ∧
     (∀ e, e ∈ tr → is_rseq e = false) ∧
     (∀ cpu q,
        read_counter (mk_ref cpu q Crseq_begin) st' =
          read_counter (mk_ref cpu q Crseq_begin) init2 ∧
        read_counter (mk_ref cpu q Crseq_end) st' =
          read_counter (mk_ref cpu q Crseq_end) init2)) ∧
  (∃ st' tr,
     side_rcu_read_end (oracle_slow 1) 0 init2 = Done tt st' tr ∧
     (∀ e, e ∈ tr → is_rseq e = false) ∧
     (∀ cpu q,
        read_counter (mk_ref cpu q Crseq_begin) st' =
          read_counter (mk_ref cpu q Crseq_begin) init2 ∧
        read_counter (mk_ref cpu q Crseq_end) st' =
          read_counter (mk_ref cpu q Crseq_end) init2)).
Proof.
  apply (flag_unset_no_rseq (oracle_slow 1) 0 init2); reflexivity.
Defined.

(** ** Calls as state changes *)

Lemma increments_only_read r old st st' :
  increments_only r old st st' →
  ∀ r', read_counter r' st' = bump r r' (read_counter r' st).
Proof.
  intros (Hold & Hnew & Hother & _) r'. unfold bump.
  destruct (decide (r' = r)) as [-> | Hne]; [| by apply Hother].
  by rewrite Hold, Hnew.
Qed.

Lemma exec_undefined c st : call_defined c st = false → exec c st = None.
Proof.
  destruct c as [o | o p]; simpl; intros Hd.
  - by rewrite (read_begin_undefined o st Hd).
  - by rewrite (read_end_undefined o p st Hd).
Qed.

(** A call that returns: the target counter went up by one, the futex
    cell changed as [call_futex] says, the rest is as before. *)
Lemma exec_effect c st :
  call_defined c st = true →
  ∃ st',
    exec c st = Some st' ∧
    (∀ r, read_counter r st' = bump (call_target c st) r (read_counter r st)) ∧
    is_Some (read_counter (call_target c st) st) ∧
    length (percpu_state st') = length (percpu_state st) ∧
    nr_cpus st' = nr_cpus st ∧
    futex_word st' = call_futex c (futex_word st) ∧
    period st' = period st ∧
    gp_lock st' = gp_lock st.
Proof.
  destruct c as [o | o p]; simpl; intros Hd.
  - destruct (read_begin_effect o st Hd) as (old & st' & Hrun & Hinc).
    rewrite Hrun. exists st'. split; [done |].
    split; [by apply (increments_only_read _ old) |].
    destruct Hinc as (Hold & _ & _ & ? & ? & ? & ? & ?).
    split_and!; try done; by eexists.
  - destruct (read_end_effect o p st Hd) as (old & st1 & Hrun & Hinc).
    rewrite Hrun. exists (woken st1). split; [done |].
    split.
    { intros r. rewrite woken_read_counter.
      by apply (increments_only_read _ old). }
    destruct Hinc as (Hold & _ & _ & ? & ? & Hfx & ? & ?).
    rewrite woken_percpu_state, woken_nr_cpus, woken_futex_word,
      woken_period, woken_gp_lock, Hfx.
    split_and!; try done; by eexists.
Qed.

Lemma exec_Some_defined c st st' :
  exec c st = Some st' → call_defined c st = true.
Proof.
  intros He. destruct (call_defined c st) eqn:Hd; [done |].
  by rewrite (exec_undefined c st Hd) in He.
Qed.

(** Whether a call is defined, and which counter it targets, depends on
    the state through the extent of [percpu_state] and [period] only. *)
Lemma call_defined_shape c st st' :
  length (percpu_state st') = length (percpu_state st) →
  period st' = period st →
  call_defined c st' = call_defined c st ∧
  call_target c st' = call_target c st.
Proof.
  intros Hlen Hper.
  destruct c as [o | o p]; simpl;
    unfold begin_defined, end_defined, indices_in_bounds, cpu_in_bounds,
      begin_target;
    by rewrite ?Hlen, ?Hper.
Qed.

(** ** Readers inside their critical section *)

Lemma Zsum_map_seq_ext (f g : nat → Z) a n :
  (∀ i, (a ≤ i < a + n)%nat → f i = g i) →
  Zsum (map f (seq a n)) = Zsum (map g (seq a n)).
Proof.
  revert a. induction n as [| n IH]; intros a Hfg; simpl; [done |].
  rewrite Hfg by lia. rewrite IH; [done |].
  intros i Hi. apply Hfg. lia.
Qed.

(** Two summands that differ at one index of the range. *)
Lemma Zsum_map_seq_update (f g : nat → Z) (k : nat) (d : Z) a n :
  (a ≤ k < a + n)%nat →
  f k = g k + d →
  (∀ i, i ≠ k → f i = g i) →
  Zsum (map f (seq a n)) = Zsum (map g (seq a n)) + d.
Proof.
  intros Hk Hfk Hother. revert a Hk.
  induction n as [| n IH]; intros a Hk; simpl; [lia |].
  destruct (decide (a = k)) as [-> | Hne].
  - rewrite Hfk.
    rewrite (Zsum_map_seq_ext f g (S k) n); [lia |].
    intros i Hi. apply Hother. lia.
  - rewrite Hother by done. rewrite IH by lia. lia.
Qed.

(** The totals after a call that added 1 to the counter [r]. *)
Lemma counter_total_bump r old st st' :
  (∀ r', read_counter r' st' = bump r r' (read_counter r' st)) →
  read_counter r st = Some old →
  length (percpu_state st') = length (percpu_state st) →
  ∀ m p,
    counter_total m p st' =
    counter_total m p st +
    (if decide (m = ref_member r ∧ p = ref_period r)
     then uintptr_add old 1 - old else 0).
Proof.
  intros Hread Hold Hlen m p. unfold counter_total. rewrite Hlen.
  assert (His : is_Some (read_counter r st)) by by eexists.
  apply read_counter_is_Some in His as [Hcpu _].
  apply cpu_in_bounds_spec in Hcpu.
  destruct (decide (m = ref_member r ∧ p = ref_period r)) as [[-> ->] | Hne].
  - apply (Zsum_map_seq_update _ _ (Z.to_nat (ref_cpu r))); [lia | |].
    + assert (Hr : mk_ref (Z.of_nat (Z.to_nat (ref_cpu r))) (ref_period r)
                     (ref_member r) = r).
      { rewrite Z2Nat.id by lia. by destruct r. }
      cbv beta. rewrite Hr. unfold counter_value.
      rewrite Hread, Hold. unfold bump.
      destruct (decide (r = r)); [simpl; ring | done].
    + intros i Hi. unfold counter_value. rewrite Hread. unfold bump.
      destruct (decide (_ = r)) as [Heq | _]; [| done].
      apply (f_equal ref_cpu) in Heq. simpl in Heq. lia.
  - rewrite Z.add_0_r. apply Zsum_map_seq_ext. intros i _.
    unfold counter_value. rewrite Hread. unfold bump.
    destruct (decide (_ = r)) as [<- | _]; [| done].
    simpl in Hne. by destruct Hne.
Qed.

Lemma mod_plus_one x old :
  (x + (uintptr_add old 1 - old)) mod 2 ^ uintptr_bits =
  (x mod 2 ^ uintptr_bits + 1) mod 2 ^ uintptr_bits.
Proof.
  unfold uintptr_add. rewrite (Z.mod_eq (old + 1)) by (by vm_compute).
  rewrite Z.add_mod_idemp_l by (by vm_compute).
  replace (x + (old + 1 - 2 ^ uintptr_bits *
                  ((old + 1) `div` 2 ^ uintptr_bits) - old))
    with (x + 1 + (- ((old + 1) `div` 2 ^ uintptr_bits)) * 2 ^ uintptr_bits)
    by lia.
  apply Z_mod_plus_full.
Qed.

Lemma mod_minus_one x old :
  (x - (uintptr_add old 1 - old)) mod 2 ^ uintptr_bits =
  (x mod 2 ^ uintptr_bits + -1) mod 2 ^ uintptr_bits.
Proof.
  unfold uintptr_add. rewrite (Z.mod_eq (old + 1)) by (by vm_compute).
  rewrite Z.add_mod_idemp_l by (by vm_compute).
  replace (x - (old + 1 - 2 ^ uintptr_bits *
                  ((old + 1) `div` 2 ^ uintptr_bits) - old))
    with (x + -1 + ((old + 1) `div` 2 ^ uintptr_bits) * 2 ^ uintptr_bits)
    by lia.
  apply Z_mod_plus_full.
Qed.

Lemma mod_plus_zero x :
  x mod 2 ^ uintptr_bits = (x mod 2 ^ uintptr_bits + 0) mod 2 ^ uintptr_bits.
Proof. by rewrite Z.add_0_r, Z.mod_mod by (by vm_compute). Qed.

(** What one returning call does to the readers active under [p]. *)
Lemma exec_active c st st' p :
  exec c st = Some st' →
  active_readers p st' =
  (active_readers p st + call_delta c (period st) p) mod 2 ^ uintptr_bits.
Proof.
  intros He. pose proof (exec_Some_defined _ _ _ He) as Hd.
  destruct (exec_effect c st Hd)
    as (st'' & He' & Hread & [old Hold] & Hlen & _).
  rewrite He in He'. injection He' as <-.
  pose proof (counter_total_bump _ old st st' Hread Hold Hlen) as Ht.
  unfold active_readers. rewrite !Ht. clear Ht Hread Hold.
  destruct c as [o | o q]; unfold call_target, call_delta.
  - unfold begin_target.
    destruct (fast_path o); unfold mk_ref; cbn [ref_member ref_period];
      destruct (Z.eqb_spec (period st) p) as [<- | Hne];
      repeat case_decide;
      try (exfalso; intuition congruence);
      first [ rewrite <- (mod_plus_one _ old); f_equal; lia
            | rewrite <- mod_plus_zero; f_equal; lia ].
  - unfold end_target.
    destruct (fast_path o); unfold mk_ref; cbn [ref_member ref_period];
      destruct (Z.eqb_spec q p) as [<- | Hne];
      repeat case_decide;
      try (exfalso; intuition congruence);
      first [ rewrite <- (mod_minus_one _ old); f_equal; lia
            | rewrite <- mod_plus_zero; f_equal; lia ].
Qed.

Lemma active_readers_mod p st :
  active_readers p st mod 2 ^ uintptr_bits = active_readers p st.
Proof. unfold active_readers. apply Z.mod_mod. by vm_compute. Qed.

(** X6: a call of [side_rcu_read_begin] raises by one, modulo 2^64, the
    number of readers active under the period it returns and leaves the
    number of the other period; a call of [side_rcu_read_end] lowers by
    one the number of the period of its ticket and leaves the other.
    This holds whichever path and CPU the call uses, and across the
    wrap of a counter. *)
Theorem reader_call_active_readers o q st :
  begin_defined o st = true →
  end_defined o q st = true →
  (∃ st' tr,
     side_rcu_read_begin o st = Done (period st) st' tr ∧
     ∀ p, active_readers p st' =
          (active_readers p st + (if period st =? p then 1 else 0))
          mod 2 ^ uintptr_bits) ∧
  (∃ st' tr,
     side_rcu_read_end o q st = Done tt st' tr ∧
     ∀ p, active_readers p st' =
          (active_readers p st + (if q =? p then -1 else 0))
          mod 2 ^ uintptr_bits).
Proof.
  intros Hb He. split.
  - destruct (read_begin_effect o st Hb) as (old & st' & Hrun & _).
    eexists _, _. split; [exact Hrun |]. intros p.
    apply (exec_active (ReadBegin o)). simpl. by rewrite Hrun.
  - destruct (read_end_effect o q st He) as (old & st1 & Hrun & _).
    eexists _, _. split; [exact Hrun |]. intros p.
    apply (exec_active (ReadEnd o q)). simpl. by rewrite Hrun.
Qed.

Lemma reader_call_active_readers_witness :
  (∃ st' tr,
     side_rcu_read_begin (oracle_abort 0 (-1)) saturated =
       Done (period saturated) st' tr ∧
     ∀ p, active_readers p st' =
          (active_readers p saturated +
           (if period saturated =? p then 1 else 0))
          mod 2 ^ uintptr_bits) ∧
  (∃ st' tr,
     side_rcu_read_end (oracle_abort 0 (-1)) 1 saturated = Done tt st' tr ∧
     ∀ p, active_readers p st' =
          (active_readers p saturated + (if 1 =? p then -1 else 0))
          mod 2 ^ uintptr_bits).
Proof.
  apply (reader_call_active_readers
           (oracle_abort 0 (-1)) 1 saturated); reflexivity.
Defined.

(** X7: a critical section that has ended leaves no trace in the count
    of active readers: after [side_rcu_read_begin] and
    [side_rcu_read_end] with the returned ticket, the number of readers
    active under every period is what it was, wherever the two calls ran
    (other CPU, other path) and even if a counter wrapped. *)
Theorem begin_end_balanced o1 o2 st :
  begin_defined o1 st = true →
  end_defined o2 (period st) st = true →
  ∃ t st1 tr1 st2 tr2,
    side_rcu_read_begin o1 st = Done t st1 tr1 ∧
    side_rcu_read_end o2 t st1 = Done tt st2 tr2 ∧
    active_readers t st1 = (active_readers t st + 1) mod 2 ^ uintptr_bits ∧
    ∀ p, active_readers p st2 = active_readers p st.
Proof.
  intros Hb He.
  destruct (read_begin_effect o1 st Hb) as (old & st1 & Hrun1 & Hinc).
  destruct Hinc as (_ & _ & _ & Hlen & _ & _ & Hper & _).
  destruct (call_defined_shape (ReadEnd o2 (period st)) st st1 Hlen Hper)
    as [Hd _]. simpl in Hd. rewrite He in Hd.
  destruct (read_end_effect o2 _ st1 Hd) as (old2 & st2 & Hrun2 & _).
  eexists _, _, _, _, _. split; [exact Hrun1 |]. split; [exact Hrun2 |].
  assert (H1 : exec (ReadBegin o1) st = Some st1) by (simpl; by rewrite Hrun1).
  assert (H2 : exec (ReadEnd o2 (period st)) st1 = Some (woken st2))
    by (simpl; by rewrite Hrun2).
  split.
  - rewrite (exec_active _ _ _ (period st) H1). simpl.
    by rewrite Z.eqb_refl.
  - intros p. rewrite (exec_active _ _ _ p H2), (exec_active _ _ _ p H1).
    simpl. rewrite Z.add_mod_idemp_l by (by vm_compute).
    rewrite <- (active_readers_mod p st) at 2. f_equal.
    destruct (period st =? p); lia.
Qed.

Lemma begin_end_balanced_witness :
  ∃ t st1 tr1 st2 tr2,
    side_rcu_read_begin (oracle_fast 0) init2 = Done t st1 tr1 ∧
    side_rcu_read_end (oracle_slow 1) t st1 = Done tt st2 tr2 ∧
    active_readers t st1 =
      (active_readers t init2 + 1) mod 2 ^ uintptr_bits ∧
    ∀ p, active_readers p st2 = active_readers p init2.
Proof.
  apply (begin_end_balanced (oracle_fast 0) (oracle_slow 1) init2);
    reflexivity.
Defined.

(** ** Sequences of calls *)

(** The futex cell goes from [a] to [b] under readers: it keeps its
    value or is reset from -1 to 0. *)
Lemma call_futex_cases c v :
  call_futex c v = v ∨ (v = -1 ∧ call_futex c v = 0).
Proof.
  destruct c; simpl; [by left |].
  destruct (Z.eqb_spec v (-1)); [by right | by left].
Qed.

Lemma run_effect cs st :
  Forall (λ c, call_defined c st = true) cs →
  ∃ st',
    run cs st = Some st' ∧
    length (percpu_state st') = length (percpu_state st) ∧
    nr_cpus st' = nr_cpus st ∧
    period st' = period st ∧
    gp_lock st' = gp_lock st ∧
    (futex_word st' = futex_word st ∨
     (futex_word st = -1 ∧ futex_word st' = 0)) ∧
    ∀ p, active_readers p st' =
         (active_readers p st + run_delta cs (period st) p)
         mod 2 ^ uintptr_bits.
Proof.
  revert st. induction cs as [| c cs IH]; intros st Hall.
  - exists st. simpl. split_and!; try done; [by left |].
    intros p. unfold run_delta. simpl.
    by rewrite Z.add_0_r, active_readers_mod.
  - apply Forall_cons in Hall as [Hc Hcs].
    destruct (exec_effect c st Hc)
      as (st1 & He & _ & _ & Hlen & Hnr & Hfx & Hper & Hlock).
    assert (Hcs1 : Forall (λ c, call_defined c st1 = true) cs).
    { eapply Forall_impl; [exact Hcs |]. intros c' Hc'. simpl in Hc'.
      by rewrite (proj1 (call_defined_shape c' st st1 Hlen Hper)). }
    destruct (IH st1 Hcs1)
      as (st' & Hrun & Hlen' & Hnr' & Hper' & Hlock' & Hfx' & Hact).
    exists st'. simpl. rewrite He. simpl.
    split; [done |].
    split; [congruence |]. split; [congruence |].
    split; [congruence |]. split; [congruence |].
    split.
    + rewrite Hfx in Hfx'.
      destruct (call_futex_cases c (futex_word st)) as [Hk | [Hm Hz]];
        rewrite ?Hk, ?Hz in Hfx'; [done |].
      right. split; [done |]. lia.
    + intros p. rewrite Hact, Hper, (exec_active _ _ _ p He).
      rewrite Z.add_mod_idemp_l by (by vm_compute).
      f_equal. unfold run_delta. simpl. lia.
Qed.

Lemma run_Some_defined cs st st' :
  run cs st = Some st' → Forall (λ c, call_defined c st = true) cs.
Proof.
  revert st. induction cs as [| c cs IH]; intros st Hrun; [constructor |].
  simpl in Hrun.
  destruct (exec c st) as [st1 |] eqn:He; [| done]. simpl in Hrun.
  pose proof (exec_Some_defined _ _ _ He) as Hd.
  destruct (exec_effect c st Hd) as (st1' & He' & _ & _ & Hlen & _ & _ & Hper & _).
  rewrite He in He'. injection He' as <-.
  constructor; [done |].
  eapply Forall_impl; [exact (IH st1 Hrun) |]. intros c' Hc'. simpl in Hc'.
  by rewrite <- (proj1 (call_defined_shape c' st st1 Hlen Hper)).
Qed.

(** X8: calls that are each defined in the starting state all return when
    run one after the other, in any order and number, and the readers
    active under [p] at the end are those at the start, plus the begins
    if [p] is the period of the state, minus the ends with ticket [p],
    modulo 2^64. *)
Theorem run_active_readers cs st :
  Forall (λ c, call_defined c st = true) cs →
  ∃ st',
    run cs st = Some st' ∧
    ∀ p, active_readers p st' =
         (active_readers p st + run_delta cs (period st) p)
         mod 2 ^ uintptr_bits.
Proof.
  intros Hall.
  destruct (run_effect cs st Hall) as (st' & Hrun & _ & _ & _ & _ & _ & Hact).
  by exists st'.
Qed.

Lemma run_active_readers_witness :
  ∃ st',
    run [ReadBegin (oracle_fast 0); ReadBegin (oracle_slow 1);
         ReadEnd (oracle_abort 1 0) 0] init2 = Some st' ∧
    ∀ p, active_readers p st' =
         (active_readers p init2 +
          run_delta [ReadBegin (oracle_fast 0); ReadBegin (oracle_slow 1);
                     ReadEnd (oracle_abort 1 0) 0] (period init2) p)
         mod 2 ^ uintptr_bits.
Proof.
  apply (run_active_readers
           [ReadBegin (oracle_fast 0); ReadBegin (oracle_slow 1);
            ReadEnd (oracle_abort 1 0) 0] init2).
  repeat constructor.
Defined.

(** X9: reader calls never change [period], [nr_cpus], [gp_lock] or the
    extent of [percpu_state], and never put -1 in the futex cell: over
    any sequence of calls the cell keeps its value or goes from -1 to 0.
    Hence a call that is defined before the sequence is defined after
    it: a reader holding a ticket can always end. *)
Theorem run_keeps_shape cs st :
  Forall (λ c, call_defined c st = true) cs →
  ∃ st',
    run cs st = Some st' ∧
    period st' = period st ∧
    nr_cpus st' = nr_cpus st ∧
    gp_lock st' = gp_lock st ∧
    length (percpu_state st') = length (percpu_state st) ∧
    (futex_word st' = futex_word st ∨
     (futex_word st = -1 ∧ futex_word st' = 0)) ∧
    ∀ c, call_defined c st' = call_defined c st.
Proof.
  intros Hall.
  destruct (run_effect cs st Hall)
    as (st' & Hrun & Hlen & Hnr & Hper & Hlock & Hfx & _).
  exists st'. split_and!; try done.
  intros c. by apply call_defined_shape.
Qed.

Lemma run_keeps_shape_witness :
  ∃ st',
    run [ReadBegin (oracle_fast 0); ReadEnd (oracle_slow 1) 0]
      (with_futex_word (-1) init2) = Some st' ∧
    period st' = period (with_futex_word (-1) init2) ∧
    nr_cpus st' = nr_cpus (with_futex_word (-1) init2) ∧
    gp_lock st' = gp_lock (with_futex_word (-1) init2) ∧
    length (percpu_state st') =
      length (percpu_state (with_futex_word (-1) init2)) ∧
    (futex_word st' = futex_word (with_futex_word (-1) init2) ∨
     (futex_word (with_futex_word (-1) init2) = -1 ∧ futex_word st' = 0)) ∧
    ∀ c, call_defined c st' = call_defined c (with_futex_word (-1) init2).
Proof.
  apply (run_keeps_shape
           [ReadBegin (oracle_fast 0); ReadEnd (oracle_slow 1) 0]
           (with_futex_word (-1) init2)).
  repeat constructor.
Defined.

(** ** The order of calls *)

(** Two states with the same counters and fields are the same state. *)
Lemma state_ext st1 st2 :
  length (percpu_state st1) = length (percpu_state st2) →
  (∀ r, read_counter r st1 = read_counter r st2) →
  nr_cpus st1 = nr_cpus st2 →
  futex_word st1 = futex_word st2 →
  period st1 = period st2 →
  gp_lock st1 = gp_lock st2 →
  st1 = st2.
Proof.
  destruct st1 as [l1 n1 f1 p1 k1], st2 as [l2 n2 f2 p2 k2]. simpl.
  intros Hlen Hread -> -> -> ->. f_equal.
  apply list_eq_same_length with (length l1); [done | done |].
  intros i s1 s2 Hi H1 H2.
  assert (Hm : ∀ p m, count_at p s1 ≫= (λ c, Some (get_member m c)) =
                      count_at p s2 ≫= (λ c, Some (get_member m c))).
  { intros p m. specialize (Hread (mk_ref (Z.of_nat i) p m)).
    unfold read_counter, percpu_at in Hread. simpl in Hread.
    destruct (Z.ltb_spec (Z.of_nat i) 0); [lia |].
    rewrite Nat2Z.id, H1, H2 in Hread. exact Hread. }
  destruct s1 as [[a1 b1]], s2 as [[a2 b2]]. f_equal.
  pose proof (Hm 0 Cbegin) as A1. pose proof (Hm 0 Crseq_begin) as A2.
  pose proof (Hm 0 Cend) as A3. pose proof (Hm 0 Crseq_end) as A4.
  pose proof (Hm 1 Cbegin) as B1. pose proof (Hm 1 Crseq_begin) as B2.
  pose proof (Hm 1 Cend) as B3. pose proof (Hm 1 Crseq_end) as B4.
  unfold count_at in *. simpl in *.
  destruct a1, a2, b1, b2. simpl in *. congruence.
Qed.

Lemma bump_commute r1 r2 r x :
  bump r2 r (bump r1 r x) = bump r1 r (bump r2 r x).
Proof. unfold bump. by repeat case_decide. Qed.

Lemma call_futex_commute c1 c2 v :
  call_futex c2 (call_futex c1 v) = call_futex c1 (call_futex c2 v).
Proof.
  destruct c1, c2; simpl; try done.
Qed.

(** Two calls in either order. *)
Lemma exec_commute c1 c2 st :
  exec c1 st ≫= exec c2 = exec c2 st ≫= exec c1.
Proof.
  destruct (call_defined c1 st) eqn:Hd1; destruct (call_defined c2 st) eqn:Hd2.
  - destruct (exec_effect c1 st Hd1)
      as (a & Ha & Hra & _ & Hla & Hna & Hfa & Hpa & Hka).
    destruct (exec_effect c2 st Hd2)
      as (b & Hb & Hrb & _ & Hlb & Hnb & Hfb & Hpb & Hkb).
    destruct (call_defined_shape c2 st a Hla Hpa) as [Hd2a Ht2a].
    destruct (call_defined_shape c1 st b Hlb Hpb) as [Hd1b Ht1b].
    rewrite Hd2 in Hd2a. rewrite Hd1 in Hd1b.
    destruct (exec_effect c2 a Hd2a)
      as (ab & Hab & Hrab & _ & Hlab & Hnab & Hfab & Hpab & Hkab).
    destruct (exec_effect c1 b Hd1b)
      as (ba & Hba & Hrba & _ & Hlba & Hnba & Hfba & Hpba & Hkba).
    rewrite Ha, Hb. simpl. rewrite Hab, Hba. f_equal.
    apply state_ext; try congruence.
    + intros r. rewrite Hrab, Hra, Hrba, Hrb, Ht2a, Ht1b.
      apply bump_commute.
    + rewrite Hfab, Hfa, Hfba, Hfb. apply call_futex_commute.
  - rewrite (exec_undefined c2 st Hd2).
    destruct (exec_effect c1 st Hd1) as (a & Ha & _ & _ & Hla & _ & _ & Hpa & _).
    rewrite Ha. simpl.
    destruct (call_defined_shape c2 st a Hla Hpa) as [Hd2a _].
    rewrite Hd2 in Hd2a. by rewrite (exec_undefined c2 a Hd2a).
  - rewrite (exec_undefined c1 st Hd1).
    destruct (exec_effect c2 st Hd2) as (b & Hb & _ & _ & Hlb & _ & _ & Hpb & _).
    rewrite Hb. simpl.
    destruct (call_defined_shape c1 st b Hlb Hpb) as [Hd1b _].
    rewrite Hd1 in Hd1b. by rewrite (exec_undefined c1 b Hd1b).
  - by rewrite (exec_undefined c1 st Hd1), (exec_undefined c2 st Hd2).
Qed.

Lemma run_cons_bind c cs st : run (c :: cs) st = exec c st ≫= run cs.
Proof. done. Qed.

(** X10: the state that a set of reader calls leaves does not depend on
    the order in which the calls run: two orders of the same calls are
    defined together and end in the same counters and futex cell.  An
    interleaving of whole calls of several threads can be read in any
    order. *)
Theorem run_permutation cs cs' st :
  cs ≡ₚ cs' → run cs st = run cs' st.
Proof.
  intros Hperm. revert st.
  induction Hperm as [| c l l' _ IH | c1 c2 l | l l' l'' _ IH1 _ IH2];
    intros st.
  - done.
  - rewrite !run_cons_bind. destruct (exec c st) as [st1 |]; [| done].
    simpl. apply IH.
  - rewrite !run_cons_bind.
    pose proof (exec_commute c1 c2 st) as Hc.
    destruct (exec c2 st) as [b |] eqn:Hb; destruct (exec c1 st) as [a |] eqn:Ha;
      simpl in *; rewrite ?run_cons_bind.
    + by rewrite <- Hc.
    + by rewrite <- Hc.
    + by rewrite Hc.
    + done.
  - by rewrite IH1, IH2.
Qed.

Lemma run_permutation_witness :
  run [ReadEnd (oracle_slow 1) 0; ReadBegin (oracle_fast 1)]
    (with_futex_word (-1) init2) =
  run [ReadBegin (oracle_fast 1); ReadEnd (oracle_slow 1) 0]
    (with_futex_word (-1) init2).
Proof.
  apply (run_permutation
           [ReadEnd (oracle_slow 1) 0; ReadBegin (oracle_fast 1)]
           [ReadBegin (oracle_fast 1); ReadEnd (oracle_slow 1) 0]
           (with_futex_word (-1) init2)).
  apply perm_swap.
Defined.

(** ** One wake-up per sleep *)


